(** * book_utils: a shallow embedding of [src/book_utils.py]

    The development follows the Python module function by function.
    Python [str] is modelled by [string], Python [int] by [Z] (frequencies,
    list indices) or [nat] (lengths and occurrence counts), a [dict] by a
    [gmap], a [list] by a [list], and an exception by the left summand of
    the [result] type. *)

From Stdlib Require Import ZArith Ascii String Decimal DecimalString DecimalZ.
From stdpp Require Import gmap strings list sorting.
From Equations Require Import Equations.

Local Open Scope Z_scope.

(** ** Exceptions and fallible computations *)

(** The exceptions that the module and the builtins it calls can raise.
    [CollaboratorError] stands for any exception raised inside a
    collaborator that lives outside this module ([utils], [epub_meta]). *)
Inductive exn : Type :=
| ValueError (msg : string)
| IndexError (msg : string)
| OSError (msg : string)
| CollaboratorError (msg : string).

Definition result (A : Type) : Type := exn + A.

Definition raise {A} (e : exn) : result A := inl e.

#[global] Instance result_ret : MRet result := λ A x, inr x.
#[global] Instance result_bind : MBind result := λ A B f m,
  match m with
  | inl e => inl e
  | inr x => f x
  end.

#[global] Instance exn_eq_dec : EqDecision exn.
Proof. solve_decision. Defined.

(** ** The Python builtins the module relies on *)

Definition len {A} (l : list A) : Z := Z.of_nat (length l).

(** [l[k]] for a Python list: a negative index counts from the end, and an
    index outside [-len(l), len(l)) raises [IndexError]. *)
Definition py_index {A} (l : list A) (k : Z) : result A :=
  let k' := if decide (k < 0) then len l + k else k in
  if decide (k' < 0) then raise (IndexError "list index out of range")
  else match l !! Z.to_nat k' with
       | Some x => mret x
       | None => raise (IndexError "list index out of range")
       end.

(** [s.split(sep)] for a one-character separator: the pieces between the
    occurrences of [sep], of which there is always at least one. *)
Fixpoint split (sep : ascii) (s : string) : list string :=
  match s with
  | EmptyString => [EmptyString]
  | String c s' =>
      if decide (c = sep) then EmptyString :: split sep s'
      else match split sep s' with
           | piece :: pieces => String c piece :: pieces
           | [] => [String c EmptyString]
           end
  end.

(** [str(n)] for an [int]: the decimal numeral, with a leading minus sign
    for a negative number. *)
Definition str (n : Z) : string := NilZero.string_of_int (Z.to_int n).

(** [int(s)] for a [str]: the value of a decimal numeral with an optional
    sign, and [ValueError] otherwise. (Python also accepts surrounding
    white space and underscores between digits; none of the strings built
    by this module has them.) *)
Definition int_literal (s : string) : option Z :=
  match s with
  | String c s' =>
      if decide (c = "+"%char) then Z.of_uint <$> NilZero.uint_of_string s'
      else Z.of_int <$> NilZero.int_of_string s
  | EmptyString => None
  end.

Definition int (s : string) : result Z :=
  match int_literal s with
  | Some n => mret n
  | None => raise (ValueError ("invalid literal for int() with base 10: '" +:+ s +:+ "'"))
  end.

(** [sep.join(l)] *)
Definition join (sep : string) (l : list string) : string := String.concat sep l.

(** [xs.count(x)] *)
Definition count `{EqDecision A} (x : A) (xs : list A) : nat :=
  length (filter (λ y, y = x) xs).

(** ** Histogram bins *)

(** The loop of [generatebins]: the state is [(a, b, lst)]. *)
Equations? generatebins_loop (maximum_num a b : Z) (lst : list string) : list string
  by wf (Z.to_nat (maximum_num - b + 1)) lt :=
  generatebins_loop maximum_num a b lst with decide (b <= maximum_num) => {
    | left _ := generatebins_loop maximum_num b (b + 500) (lst ++ [str a +:+ "-" +:+ str b]);
    | right _ := lst }.
Proof. lia. Qed.

Definition generatebins (maximum_num : Z) : list string :=
  generatebins_loop maximum_num 0 500 [].

(** The loop of [getbins] over [range(len(bins))]: [i] is the current index
    and [rest] the bins from index [i] on. The conjunction is evaluated
    left to right and stops at the first false operand. *)
Fixpoint getbins_loop (freq_num : Z) (n : Z) (i : Z) (rest : list string) : result Z :=
  match rest with
  | [] => mret (n - 1)
  | bin :: rest' =>
      let lst := split "-" bin in
      lo ← py_index lst 0 ≫= int;
      if decide (freq_num >= lo) then
        hi ← py_index lst 1 ≫= int;
        if decide (freq_num < hi) then mret i
        else getbins_loop freq_num n (i + 1) rest'
      else getbins_loop freq_num n (i + 1) rest'
  end.

Definition getbins (freq_num : Z) (bins : list string) : result Z :=
  getbins_loop freq_num (len bins) 0 bins.

(** ** Word list entries *)

(** An entry of a frequency list, as returned by the [frequency_lists]
    module: the histogram reads its [frequency] and [stars] attributes. *)
Record FrequencyEntry : Type := { frequency : Z; stars : Z }.

(** An element of [word_list]. The dictionary key ["frequency"] is the
    field [frequencies] here, since [frequency] already names the attribute
    of [FrequencyEntry]; the key ["ocurrences"] is spelled as in the source. *)
Record WordStat : Type := {
  word : string;
  ocurrences : nat;
  frequencies : gmap string FrequencyEntry
}.

Definition getmaximumfreq (word_list : list WordStat) : Z :=
  foldl (λ maximum_num i,
           match frequencies i !! "netflix" with
           | Some e => Z.max maximum_num (frequency e)
           | None => maximum_num
           end) 0 word_list.

(** ** The histogram data frame *)

(** A cell of the [Stars] column: [np.nan] or a number. *)
Inductive cell : Type := NaN | Num (n : Z).

Record row : Type := { Range : string; Stars : cell }.

Definition DataFrame : Type := list row.

(** [df.append(r, ignore_index=True)] returns the frame with [r] added as
    its last row. *)
Definition df_append (df : DataFrame) (r : row) : DataFrame := df ++ [r].

(** The body of the second loop of [gethistogram]. *)
Definition gethistogram_step (bins : list string) (df : DataFrame) (i : WordStat)
  : result DataFrame :=
  match frequencies i !! "netflix" with
  | Some e =>
      k ← getbins (frequency e) bins;
      r ← py_index bins k;
      mret (df_append df {| Range := r; Stars := Num (stars e) |})
  | None => mret df
  end.

Fixpoint gethistogram_words (bins : list string) (df : DataFrame)
  (word_list : list WordStat) : result DataFrame :=
  match word_list with
  | [] => mret df
  | i :: word_list' =>
      df' ← gethistogram_step bins df i;
      gethistogram_words bins df' word_list'
  end.

(** [gethistogram] up to the call of [px.histogram]: the value is the data
    frame that is handed to the plotting library. *)
Definition gethistogram (word_list : list WordStat) : result DataFrame :=
  let bins := generatebins (getmaximumfreq word_list) in
  let df := [ {| Range := "0-500"; Stars := NaN |} ] in
  let df := foldl (λ df i, df_append df {| Range := i; Stars := Num 0 |}) df bins in
  gethistogram_words bins df word_list.

(** [px.histogram(df, 'Range')] draws one bar per value of the [Range]
    column, whose height is the number of rows that carry the value. *)
Definition bin_count (df : DataFrame) (r : string) : nat :=
  count r (Range <$> df).

Definition px_histogram (df : DataFrame) : list (string * nat) :=
  (λ r, (r, bin_count df r)) <$> remove_dups (Range <$> df).

Definition sum_counts (h : list (string * nat)) : nat := sum_list (snd <$> h).

(** ** Counting words and characters *)

(** A character of a text is a Unicode code point. *)
Definition codepoint : Type := N.

(** The order in which a Python [set] built from a list yields its
    members. The language promises that every member comes up once and
    nothing more; for [str] members the order follows hash values that
    are salted anew in each interpreter process. [set_iter xs] is
    [list(set(xs))]. *)
Class SetIter (A : Type) : Type := {
  set_iter : list A → list A;
  set_iter_NoDup : ∀ xs, NoDup (set_iter xs);
  set_iter_elem : ∀ xs x, x ∈ set_iter xs ↔ x ∈ xs
}.

(** [sorted(l, key=lambda tup: tup[1], reverse=True)]: a stable sort by
    decreasing second component. Elements with equal keys keep the order
    they have in [l], also under [reverse=True]. *)
Fixpoint insert_desc {A} (x : A * nat) (l : list (A * nat)) : list (A * nat) :=
  match l with
  | [] => [x]
  | y :: l' =>
      if decide (snd x < snd y)%nat then y :: insert_desc x l' else x :: y :: l'
  end.

Definition sorted_desc {A} (l : list (A * nat)) : list (A * nat) :=
  foldr insert_desc [] l.

(** [sorted([(x, xs.count(x)) for x in set(xs)], ...)] *)
Definition with_uses `{EqDecision A} `{!SetIter A} (xs : list A) : list (A * nat) :=
  sorted_desc ((λ x, (x, count x xs)) <$> set_iter xs).

(** [[x for x, uses in l if uses == 1]] *)
Definition used_once_of {A} (l : list (A * nat)) : list A :=
  fst <$> filter (λ p, snd p = 1%nat) l.

(** An element of [char_list]; the key is spelled ["occurences"] there. *)
Record CharStat : Type := { character : codepoint; occurences : nat }.

(** The [Book] object built by [process_file]. *)
Module Book.
Record t : Type := {
  path : string;
  title : string;
  authors : list string;
  image : string;
  file_hash : string;
  book_dir : string
}.
End Book.

(** The dictionary [book_data] returned by [analyse_ebook]. *)
Record book_data : Type := {
  title : string;
  authors : list string;
  image : string;
  n_words : nat;
  n_words_unique : nat;
  n_words_used_once : nat;
  n_chars : nat;
  n_chars_unique : nat;
  n_chars_used_once : nat;
  words : list WordStat;
  chars : list CharStat;
  file_hash : string
}.

Section Analysis.
Context `{!SetIter codepoint} `{!SetIter string}.
(** [get_frequency(word, frequency_lists)] of the [frequency_lists]
    module, with the loaded lists already applied. *)
Variable get_frequency : string → gmap string FrequencyEntry.

Definition word_list_of (words_with_uses : list (string * nat)) : list WordStat :=
  (λ p, {| word := fst p; ocurrences := snd p;
           frequencies := get_frequency (fst p) |}) <$> words_with_uses.

Definition char_list_of (chars_with_uses : list (codepoint * nat)) : list CharStat :=
  (λ p, {| character := fst p; occurences := snd p |}) <$> chars_with_uses.

(** The analysis proper: from the text that was read and the words that
    [parse_sentence] found in it to the [book_data] dictionary. *)
Definition analyse (book : Book.t) (text : list codepoint) (words : list string)
  : book_data :=
  let chars := text in
  let unique_chars := set_iter text in
  let chars_with_uses := with_uses chars in
  let chars_used_once := used_once_of chars_with_uses in
  let unique_words := set_iter words in
  let words_with_uses := with_uses words in
  let used_once := used_once_of words_with_uses in
  {| title := Book.title book;
     authors := Book.authors book;
     image := Book.image book;
     n_words := length words;
     n_words_unique := length unique_words;
     n_words_used_once := length used_once;
     n_chars := length chars;
     n_chars_unique := length unique_chars;
     n_chars_used_once := length chars_used_once;
     words := word_list_of words_with_uses;
     chars := char_list_of chars_with_uses;
     file_hash := Book.file_hash book |}.
End Analysis.

(** ** Turning a file into a [Book] *)

(** [s.replace(old, new)]: every occurrence of [old] in [s], found from
    left to right without overlap, gives way to [new]. [skip] counts the
    characters of a match that are still to be passed over. *)
Fixpoint replace_from (old new : string) (skip : nat) (s : string) : string :=
  match s with
  | EmptyString => EmptyString
  | String c s' =>
      match skip with
      | S k => replace_from old new k s'
      | O =>
          if String.prefix old s
          then new +:+ replace_from old new (String.length old - 1) s'
          else String c (replace_from old new 0 s')
      end
  end.

Fixpoint replace_empty (new : string) (s : string) : string :=
  match s with
  | EmptyString => EmptyString
  | String c s' => String c (new +:+ replace_empty new s')
  end.

Definition replace (old new s : string) : string :=
  if decide (old = EmptyString) then new +:+ replace_empty new s
  else replace_from old new 0 s.

(** What a collaborator outside this module hands back: a value, or the
    message of the exception it raised. *)
Definition outcome (A : Type) : Type := string + A.

Definition call {A} (o : outcome A) : result A :=
  match o with
  | inl msg => raise (CollaboratorError msg)
  | inr x => mret x
  end.

(** The fields of [epub_meta.get_epub_metadata(path)] that are read. *)
Record epub_metadata : Type := {
  meta_title : string;
  meta_authors : list string;
  cover_image_content : string
}.

(** The world around the module: the files that can be opened, the hash
    function, and the collaborators of [utils], [epub_meta], [MeCab] and
    [frequency_lists]. *)
Record Env : Type := {
  open_rb : string → option string;
  hexdigest : string → string;
  remove_ruby_text_from_epub : string → string → outcome string;
  get_epub_metadata : string → outcome epub_metadata;
  save_base64_image : string → string → outcome string;
  convert_epub_to_txt : string → outcome string;
  read_text : string → outcome (list codepoint);
  parse_sentence : list codepoint → outcome (list string);
  get_frequency : string → gmap string FrequencyEntry;
  chars_iter : SetIter codepoint;
  words_iter : SetIter string
}.

Section Files.
Variable env : Env.

(** [open] raises an [OSError] for a file that cannot be opened, and
    [mmap.mmap] a [ValueError] for a file of length zero. *)
Definition sha256sum (filename : string) : result string :=
  match open_rb env filename with
  | None => raise (OSError ("No such file or directory: '" +:+ filename +:+ "'"))
  | Some data =>
      if decide (data = EmptyString) then raise (ValueError "cannot mmap an empty file")
      else mret (hexdigest env data)
  end.

Definition process_epub (filename book_dir file_hash : string) : result Book.t :=
  book_path ← call (remove_ruby_text_from_epub env filename (book_dir +:+ "/no-furigana.epub"));
  book_metadata ← call (get_epub_metadata env book_path);
  let title := meta_title book_metadata in
  let authors := meta_authors book_metadata in
  let image := cover_image_content book_metadata in
  image_path ← call (save_base64_image env image (book_dir +:+ "/cover-image.jpg"));
  txt_file ← call (convert_epub_to_txt env book_path);
  mret {| Book.path := txt_file; Book.title := title; Book.authors := authors;
          Book.image := image_path; Book.file_hash := file_hash;
          Book.book_dir := book_dir |}.

Definition process_txt (filename book_dir file_hash : string) : result Book.t :=
  ext ← py_index (split "." filename) (-1);
  let extension := "." +:+ ext in
  name ← py_index (split "/" filename) (-1);
  let title := replace extension "" name in
  mret {| Book.path := filename; Book.title := title; Book.authors := [];
          Book.image := ""; Book.file_hash := file_hash;
          Book.book_dir := book_dir |}.

Definition allowed_extensions : list string := ["epub"; "txt"].

(** The [mkdir -p] that [process_file] runs through a shell changes the
    file system only; [subprocess.run] does not raise when it fails. *)
Definition process_file (filename : string) : result Book.t :=
  extension ← py_index (split "." filename) (-1);
  file_hash ← sha256sum filename;
  let book_dir := "static/books/" +:+ file_hash in
  if decide (extension = "epub") then process_epub filename book_dir file_hash
  else if decide (extension = "txt") then process_txt filename book_dir file_hash
  else raise (ValueError ("Filename extension must be one of "
                          +:+ join "," allowed_extensions)).

(** [analyse_ebook]: the book is processed, its text read and cut into
    words, the [book_data] dictionary built and, after it has been written
    out and the directories cleaned, the histogram drawn from its
    [words]. The dictionary is returned only if all of this succeeds.
    Creating the tagger, loading the frequency lists, writing
    [book_data.json] and cleaning the directories act on the world only
    and are taken to succeed. *)
Definition analyse_ebook (filename : string) : result book_data :=
  book ← process_file filename;
  text ← call (read_text env (Book.path book));
  tokens ← call (parse_sentence env text);
  let data := @analyse (chars_iter env) (words_iter env) (get_frequency env)
                book text tokens in
  _ ← gethistogram (words data);
  mret data.
End Files.

(** Two iteration orders that a set may have: the members in the order
    of their last occurrences, and in the reverse of that order. *)
#[program] Definition iter_forward `{EqDecision A} : SetIter A :=
  {| set_iter := remove_dups |}.
Next Obligation. intros. apply NoDup_remove_dups. Qed.
Next Obligation. intros. apply elem_of_remove_dups. Qed.

#[program] Definition iter_backward `{EqDecision A} : SetIter A :=
  {| set_iter xs := reverse (remove_dups xs) |}.
Next Obligation. intros. rewrite reverse_Permutation. apply NoDup_remove_dups. Qed.
Next Obligation. intros. rewrite elem_of_reverse. apply elem_of_remove_dups. Qed.

(** ** Vocabulary of the properties *)

(** [occurs c s]: the character [c] occurs in [s]. *)
Fixpoint occurs (c : ascii) (s : string) : Prop :=
  match s with
  | EmptyString => False
  | String c' s' => c' = c ∨ occurs c s'
  end.

Definition is_digit (c : ascii) : Prop :=
  (nat_of_ascii "0" <= nat_of_ascii c <= nat_of_ascii "9")%nat.

Fixpoint all_digits (s : string) : Prop :=
  match s with
  | EmptyString => True
  | String c s' => is_digit c ∧ all_digits s'
  end.

(** The name of the bin [[a, b)], as [generatebins] writes it. *)
Definition bin_name (a b : Z) : string := str a +:+ "-" +:+ str b.

(** The bins named by a list of ranges. *)
Definition bin_names (ranges : list (Z * Z)) : list string :=
  (λ r, bin_name r.1 r.2) <$> ranges.

(** The range of the [i]-th bin of width 500. *)
Definition nth_range (i : nat) : Z * Z := (500 * Z.of_nat i, 500 * (Z.of_nat i + 1)).

(** [freq] lies in the half-open range [r]. *)
Definition in_range (freq : Z) (r : Z * Z) : Prop := r.1 <= freq < r.2.

#[global] Instance in_range_dec freq r : Decision (in_range freq r).
Proof. unfold in_range. apply _. Defined.

(** The word carries an entry of the frequency list that is tracked. *)
Definition has_entry (w : WordStat) : Prop := is_Some (frequencies w !! "netflix").

#[global] Instance has_entry_dec w : Decision (has_entry w).
Proof. unfold has_entry. apply _. Defined.

(** The rows with which [gethistogram] starts: the row of the initial
    frame and one row per bin. *)
Definition seed_rows (bins : list string) : DataFrame :=
  {| Range := "0-500"; Stars := NaN |}
  :: ((λ i, {| Range := i; Stars := Num 0 |}) <$> bins).

(** The row [r] puts the word [w] into one of the [bins]. *)
Definition assigned (bins : list string) (w : WordStat) (r : row) : Prop :=
  ∃ e, frequencies w !! "netflix" = Some e
       ∧ Range r ∈ bins ∧ Stars r = Num (stars e).

(** The bins are the first [k] ranges of width 500 and reach up to [m]. *)
Definition bins_reach (bins : list string) (m : Z) : Prop :=
  ∃ k : nat, bins = bin_names (nth_range <$> seq 0 k) ∧ m <= 500 * Z.of_nat k.

(** The bin counts of the histogram add up to the number of words that
    carry an entry. *)
Definition counts_add_up (word_list : list WordStat) : Prop :=
  ∃ df, gethistogram word_list = inr df
        ∧ sum_counts (px_histogram df) = length (filter has_entry word_list).

(** A word with a single entry, under the key ["netflix"]. *)
Definition netflix_word (w : string) (n : nat) (f s : Z) : WordStat :=
  {| word := w; ocurrences := n;
     frequencies := {[ "netflix" := {| frequency := f; stars := s |} ]} |}.

(** The word list of the scenario with one word of frequency 1200, and
    one whose only word has a frequency below the bin width. *)
Definition neko_1200 : list WordStat := [netflix_word "猫" 3 1200 4].
Definition neko_100 : list WordStat := [netflix_word "猫" 3 100 5].

(** The order that [sorted_desc] establishes: the count does not grow
    from an element to a later one. *)
Definition by_uses {A} : relation (A * nat) := λ p q, (snd q <= snd p)%nat.

(** The tokens of the scenario "猫が猫を見た。猫。" and its code points. *)
Definition scenario_tokens : list string :=
  ["猫"; "が"; "猫"; "を"; "見た"; "。"; "猫"; "。"].

Definition scenario_text : list codepoint :=
  [0x732B; 0x304C; 0x732B; 0x3092; 0x898B; 0x305F; 0x3002; 0x732B; 0x3002]%N.

(** A book and a word list with two words that are used once each. *)
Definition some_book : Book.t :=
  {| Book.path := "static/books/00/book.txt"; Book.title := "book";
     Book.authors := []; Book.image := ""; Book.file_hash := "00";
     Book.book_dir := "static/books/00" |}.

Definition two_words : list string := ["が"; "を"].

(** The message of the [ValueError] that [process_file] raises. *)
Definition extension_error : exn :=
  ValueError "Filename extension must be one of epub,txt".

(** A world without files and without working collaborators. *)
Definition no_files : Env :=
  {| open_rb := λ _, None;
     hexdigest := λ _, "00";
     remove_ruby_text_from_epub := λ _ _, inl "unavailable";
     get_epub_metadata := λ _, inl "unavailable";
     save_base64_image := λ _ _, inl "unavailable";
     convert_epub_to_txt := λ _, inl "unavailable";
     read_text := λ _, inl "unavailable";
     parse_sentence := λ _, inl "unavailable";
     get_frequency := λ _, ∅;
     chars_iter := iter_forward;
     words_iter := iter_forward |}.

(** A world whose files all hold the text of the scenario, in which the
    frequency list knows the word "猫" with frequency 100. *)
Definition scenario_env : Env :=
  {| open_rb := λ _, Some "猫が猫を見た。猫。";
     hexdigest := λ _, "00";
     remove_ruby_text_from_epub := λ _ _, inl "unavailable";
     get_epub_metadata := λ _, inl "unavailable";
     save_base64_image := λ _ _, inl "unavailable";
     convert_epub_to_txt := λ _, inl "unavailable";
     read_text := λ _, inr scenario_text;
     parse_sentence := λ _, inr scenario_tokens;
     get_frequency := λ w,
       if decide (w = "猫") then {[ "netflix" := {| frequency := 100; stars := 5 |} ]}
       else ∅;
     chars_iter := iter_forward;
     words_iter := iter_forward |}.

(** ** Cleaning a directory *)

(** What [is_file()] tells about an entry of a directory. *)
Inductive entry : Type := File | Directory.

#[global] Instance entry_eq_dec : EqDecision entry.
Proof. solve_decision. Defined.

(** [Path.suffix] of a file name: the last dot of the name and what
    follows it, and the empty string when the name has no dot or when its
    last dot is its first or its last character. *)
Definition suffix (name : string) : string :=
  match reverse (split "." name) with
  | ext :: stem :: stems =>
      if decide (ext = EmptyString) then EmptyString
      else if decide (stem = EmptyString ∧ stems = []) then EmptyString
      else "." +:+ ext
  | _ => EmptyString
  end.

(** The body of the loop of [clean_dir]: [dir] maps the names of the
    entries of the directory to their kinds, and [unlink] takes a name out
    of it. *)
Definition clean_dir_step (keep_extensions : list string)
  (f : string * entry) (dir : gmap string entry) : gmap string entry :=
  match f.2 with
  | File =>
      let extension := suffix f.1 in
      if decide (extension ∈ keep_extensions) then dir else delete f.1 dir
  | Directory => dir
  end.

(** [clean_dir(directory, keep_extensions)] on the entries that
    [Path(directory).glob("*")] lists; [None] is the default of
    [keep_extensions], and [unlink] is taken to succeed. *)
Definition clean_dir (dir : gmap string entry)
  (keep_extensions : option (list string)) : gmap string entry :=
  let keep_extensions := default [] keep_extensions in
  foldr (clean_dir_step keep_extensions) dir (map_to_list dir).

(** ** Further vocabulary *)

(** A word without any entry of a frequency list. *)
Definition plain_word (w : string) (n : nat) : WordStat :=
  {| word := w; ocurrences := n; frequencies := ∅ |}.

(** A directory as [analyse_ebook] leaves it before it is cleaned. *)
Definition book_dir_entries : gmap string entry :=
  {[ "book_data.json" := File; "cover-image.jpg" := File;
     "no-furigana.epub" := File; "no-furigana.txt" := File;
     "images" := Directory ]}.
(** * Properties *)

(** ** The builtins *)

Lemma bind_inr {A B} (f : A → result B) (x : A) : (inr x : result A) ≫= f = f x.
Proof. reflexivity. Qed.

Lemma bind_inl {A B} (f : A → result B) (e : exn) : (inl e : result A) ≫= f = inl e.
Proof. reflexivity. Qed.

Lemma py_index_nonneg {A} (l : list A) (k : Z) (x : A) :
  0 <= k → l !! Z.to_nat k = Some x → py_index l k = inr x.
Proof.
  intros Hk Hx. unfold py_index. cbv zeta.
  rewrite (decide_False (P := k < 0)) by lia.
  rewrite (decide_False (P := k < 0)) by lia.
  by rewrite Hx.
Qed.

Lemma py_index_in_range {A} (l : list A) (k : Z) :
  0 <= k < len l → ∃ x, l !! Z.to_nat k = Some x ∧ py_index l k = inr x.
Proof.
  intros Hk. unfold len in Hk.
  assert (is_Some (l !! Z.to_nat k)) as [x Hx]
    by (apply lookup_lt_is_Some_2; lia).
  exists x. split; [done|]. apply py_index_nonneg; [lia|done].
Qed.

Lemma py_index_last {A} (l : list A) (x : A) :
  py_index (l ++ [x]) (-1) = inr x.
Proof.
  unfold py_index, len. cbv zeta.
  rewrite (decide_True (P := -1 < 0)) by lia.
  rewrite length_app. simpl length. rewrite decide_False by lia.
  replace (Z.to_nat (Z.of_nat (length l + 1) + -1)) with (length l) by lia.
  by rewrite list_lookup_middle.
Qed.

Lemma py_index_nil {A} (k : Z) :
  py_index (@nil A) k = inl (IndexError "list index out of range").
Proof.
  unfold py_index, len. cbv zeta. simpl length.
  destruct (decide (k < 0)); [by rewrite decide_True by lia|].
  by rewrite decide_False by lia.
Qed.

Lemma split_nonempty sep s : split sep s ≠ [].
Proof.
  destruct s as [|c s]; simpl; [done|].
  destruct (decide (c = sep)); [done|]. by destruct (split sep s).
Qed.

(** The last piece of a split always exists: [s.split(sep)[-1]] never
    raises. *)
Lemma split_last sep s : ∃ piece, py_index (split sep s) (-1) = inr piece.
Proof.
  destruct (split sep s) as [|p ps] eqn:E using rev_ind.
  - by destruct (split_nonempty sep s).
  - exists p. apply py_index_last.
Qed.

Lemma split_free sep s : ¬ occurs sep s → split sep s = [s].
Proof.
  induction s as [|c s IH]; simpl; [done|]. intros H.
  rewrite decide_False by tauto. rewrite IH by tauto. done.
Qed.

Lemma split_app sep s t :
  ¬ occurs sep s → split sep (s +:+ String sep t) = s :: split sep t.
Proof.
  induction s as [|c s IH]; simpl; intros H.
  - by rewrite decide_True.
  - rewrite decide_False by tauto. rewrite IH by tauto. done.
Qed.

Lemma string_of_uint_digits d : all_digits (NilEmpty.string_of_uint d).
Proof. induction d; simpl; (done || (split; [unfold is_digit; vm_compute; lia|done])). Qed.

Lemma str_digits n : 0 <= n → ∃ c s, str n = String c s ∧ is_digit c ∧ all_digits s.
Proof.
  intros Hn. unfold str. destruct n as [|p|p]; [| |lia].
  - exists "0"%char, EmptyString. repeat split; unfold is_digit; vm_compute; lia.
  - simpl. pose proof (string_of_uint_digits (Pos.to_uint p)) as Hd.
    pose proof (DecimalPos.Unsigned.to_uint_nonnil p) as Hnil.
    destruct (Pos.to_uint p) eqn:E; try done;
      simpl in *; destruct Hd; eauto.
Qed.

Lemma digits_no_minus s : all_digits s → ¬ occurs "-" s.
Proof.
  induction s as [|c s IH]; simpl; [tauto|].
  intros [Hc Hs] [->|H]; [|tauto].
  vm_compute in Hc; lia.
Qed.

Lemma str_no_minus n : 0 <= n → ¬ occurs "-" (str n).
Proof.
  intros Hn. destruct (str_digits n Hn) as (c & s & -> & Hc & Hs).
  apply (digits_no_minus (String c s)). by split.
Qed.

(** [int(str(n))] gives [n] back. *)
Lemma int_str n : 0 <= n → int (str n) = inr n.
Proof.
  intros Hn. destruct (str_digits n Hn) as (c & s & E & Hc & Hs).
  unfold int, int_literal. rewrite E.
  rewrite decide_False by (intros ->; vm_compute in Hc; lia).
  rewrite <- E. unfold str. rewrite NilZero.isi.
  - simpl. by rewrite DecimalZ.of_to.
  - destruct n; simpl; try discriminate.
    intros [= H]. by apply (DecimalPos.Unsigned.to_uint_nonnil p).
  - destruct n; simpl; try discriminate. lia.
Qed.

(** ** The shape of the generated bins *)

Lemma split_bin_name a b :
  0 <= a → 0 <= b → split "-" (bin_name a b) = [str a; str b].
Proof.
  intros Ha Hb. unfold bin_name.
  change (str a +:+ "-" +:+ str b) with (str a +:+ String "-" (str b)).
  rewrite split_app by by apply str_no_minus.
  by rewrite split_free by by apply str_no_minus.
Qed.

Lemma generatebins_loop_step m a b lst :
  generatebins_loop m a b lst =
  if decide (b <= m)
  then generatebins_loop m b (b + 500) (lst ++ [str a +:+ "-" +:+ str b])
  else lst.
Proof.
  rewrite generatebins_loop_equation_1.
  destruct (decide (b <= m)); by simp generatebins_loop.
Qed.

Lemma generatebins_loop_spec (n : nat) : ∀ m (j : nat) lst,
  (Z.to_nat (m / 500) - j)%nat = n →
  generatebins_loop m (500 * Z.of_nat j) (500 * (Z.of_nat j + 1)) lst =
  lst ++ bin_names (nth_range <$> seq j n).
Proof.
  induction n as [|n IH]; intros m j lst Hn; rewrite generatebins_loop_step.
  - rewrite decide_False; [by rewrite app_nil_r|].
    intros H. assert (Z.of_nat j + 1 <= m / 500) by (apply Z.div_le_lower_bound; lia). lia.
  - rewrite decide_True.
    + replace (500 * (Z.of_nat j + 1) + 500) with (500 * (Z.of_nat (S j) + 1)) by lia.
      replace (500 * (Z.of_nat j + 1)) with (500 * Z.of_nat (S j)) at 1 by lia.
      rewrite (IH m (S j)) by lia. simpl. rewrite <- app_assoc. simpl.
      done.
    + assert (Z.of_nat j + 1 <= m / 500) by lia.
      etrans; [|apply (Z.mul_div_le m 500); lia]. lia.
Qed.

(** [generatebins] makes one bin of width 500 for every whole multiple
    of 500 up to [maximum_num]. *)
Lemma generatebins_spec m :
  generatebins m = bin_names (nth_range <$> seq 0 (Z.to_nat (m / 500))).
Proof.
  unfold generatebins.
  apply (generatebins_loop_spec (Z.to_nat (m / 500)) m 0%nat []). lia.
Qed.

Lemma length_generatebins m : length (generatebins m) = Z.to_nat (m / 500).
Proof. rewrite generatebins_spec. unfold bin_names. by rewrite !length_fmap, length_seq. Qed.

(** ** Finding the bin of a frequency *)

Lemma getbins_loop_spec freq n ranges : ∀ i,
  Forall (λ r, 0 <= r.1 ∧ 0 <= r.2) ranges →
  getbins_loop freq n i (bin_names ranges) =
  inr (match list_find (in_range freq) ranges with
       | Some (j, _) => i + Z.of_nat j
       | None => n - 1
       end).
Proof.
  induction ranges as [|[a b] ranges IH]; intros i Hwf; [done|].
  apply Forall_cons in Hwf as [[Ha Hb] Hwf]. simpl in Ha, Hb.
  simpl. rewrite split_bin_name by done.
  rewrite (py_index_nonneg _ 0 (str a)) by done.
  rewrite bind_inr, int_str, bind_inr by done.
  rewrite (py_index_nonneg _ 1 (str b)) by done.
  rewrite bind_inr, int_str, bind_inr by done.
  unfold in_range at 1. simpl.
  destruct (decide (a <= freq < b)) as [Hin|Hout].
  - rewrite (decide_True (P := freq >= a)), (decide_True (P := freq < b)) by lia.
    simpl. f_equal. lia.
  - assert (getbins_loop freq n (i + 1) (bin_names ranges) =
            inr match prod_map S id <$> list_find (in_range freq) ranges with
                | Some (j, _) => i + Z.of_nat j
                | None => n - 1
                end) as Hrest.
    { rewrite IH by done.
      destruct (list_find _ ranges) as [[j r]|]; simpl; f_equal. lia. }
    destruct (decide (freq >= a)); [|done].
    rewrite (decide_False (P := freq < b)) by lia. done.
Qed.

Lemma getbins_spec freq ranges :
  Forall (λ r, 0 <= r.1 ∧ 0 <= r.2) ranges →
  getbins freq (bin_names ranges) =
  inr (match list_find (in_range freq) ranges with
       | Some (j, _) => Z.of_nat j
       | None => len ranges - 1
       end).
Proof.
  intros Hwf. unfold getbins. rewrite getbins_loop_spec by done.
  unfold bin_names, len. rewrite length_fmap.
  by destruct (list_find _ ranges) as [[j r]|].
Qed.

Lemma getbins_in_range freq ranges :
  ranges ≠ [] → Forall (λ r, 0 <= r.1 ∧ 0 <= r.2) ranges →
  ∃ i, getbins freq (bin_names ranges) = inr i ∧ 0 <= i < len ranges.
Proof.
  intros Hne Hwf. rewrite getbins_spec by done. eexists. split; [done|].
  assert (0 < len ranges) by (unfold len; destruct ranges; [done|simpl; lia]).
  destruct (list_find _ ranges) as [[j r]|] eqn:E; [|lia].
  apply list_find_Some in E as (Hj & _). apply lookup_lt_Some in Hj.
  unfold len. lia.
Qed.

(** ** The histogram *)

Lemma foldl_df_append (mk : string → row) (bins : list string) : ∀ df,
  foldl (λ df i, df_append df (mk i)) df bins = df ++ (mk <$> bins).
Proof.
  induction bins as [|b bins IH]; intros df; simpl; [by rewrite app_nil_r|].
  rewrite IH. unfold df_append. by rewrite <- app_assoc.
Qed.

Lemma maximum_foldl (word_list : list WordStat) : ∀ acc,
  let m := foldl (λ maximum_num i,
                    match frequencies i !! "netflix" with
                    | Some e => Z.max maximum_num (frequency e)
                    | None => maximum_num
                    end) acc word_list in
  acc <= m
  ∧ (∀ w e, w ∈ word_list → frequencies w !! "netflix" = Some e → frequency e <= m)
  ∧ (m = acc ∨ ∃ w e, w ∈ word_list ∧ frequencies w !! "netflix" = Some e
                      ∧ frequency e = m).
Proof.
  induction word_list as [|w wl IH]; intros acc; simpl.
  - split; [lia|]. split; [|by left]. intros w e Hw. by apply elem_of_nil in Hw.
  - destruct (frequencies w !! "netflix") as [e|] eqn:E.
    + destruct (IH (Z.max acc (frequency e))) as (H1 & H2 & H3).
      split; [lia|]. split.
      * intros w' e' [->|Hw']%elem_of_cons He'; [|by eauto].
        rewrite E in He'. injection He' as <-. lia.
      * destruct H3 as [H3|(w' & e' & ? & ? & ?)].
        -- destruct (Z.max_spec acc (frequency e)) as [[_ Hm]|[_ Hm]].
           ++ right. exists w, e. rewrite elem_of_cons. split_and!; [by left|done|lia].
           ++ left. lia.
        -- right. exists w', e'. rewrite elem_of_cons. eauto.
    + destruct (IH acc) as (H1 & H2 & H3).
      split; [done|]. split.
      * intros w' e' [->|Hw']%elem_of_cons He'; [congruence|by eauto].
      * destruct H3 as [H3|(w' & e' & ? & ? & ?)]; [by left|].
        right. exists w', e'. rewrite elem_of_cons. eauto.
Qed.

(** [getmaximumfreq] is the largest frequency among the entries, and 0
    when there is none (or none above 0). *)
Lemma getmaximumfreq_spec word_list :
  0 <= getmaximumfreq word_list
  ∧ (∀ w e, w ∈ word_list → frequencies w !! "netflix" = Some e →
            frequency e <= getmaximumfreq word_list)
  ∧ (getmaximumfreq word_list = 0
     ∨ ∃ w e, w ∈ word_list ∧ frequencies w !! "netflix" = Some e
              ∧ frequency e = getmaximumfreq word_list).
Proof. apply (maximum_foldl word_list 0). Qed.

Lemma nth_ranges_wf (j k : nat) :
  Forall (λ r, 0 <= r.1 ∧ 0 <= r.2) (nth_range <$> seq j k).
Proof.
  apply Forall_fmap, Forall_forall. intros i _. unfold nth_range. simpl. lia.
Qed.

(** With at least one well-formed bin, every step of the second loop of
    [gethistogram] succeeds, and a word with an entry adds one row. *)
Lemma gethistogram_step_ok ranges df w :
  ranges ≠ [] → Forall (λ r, 0 <= r.1 ∧ 0 <= r.2) ranges →
  match frequencies w !! "netflix" with
  | Some e => ∃ r, gethistogram_step (bin_names ranges) df w = inr (df ++ [r])
                   ∧ assigned (bin_names ranges) w r
  | None => gethistogram_step (bin_names ranges) df w = inr df
  end.
Proof.
  intros Hne Hwf. unfold gethistogram_step, assigned.
  destruct (frequencies w !! "netflix") as [e|] eqn:E; [|done].
  destruct (getbins_in_range (frequency e) ranges Hne Hwf) as (i & -> & Hi).
  rewrite bind_inr.
  destruct (py_index_in_range (bin_names ranges) i) as (b & Hb & ->).
  { unfold bin_names, len in *. by rewrite length_fmap. }
  rewrite bind_inr. eexists. split; [done|]. exists e. simpl.
  split_and!; [done| |done]. by eapply list_elem_of_lookup_2.
Qed.

Lemma gethistogram_words_ok ranges word_list : ∀ df,
  ranges ≠ [] → Forall (λ r, 0 <= r.1 ∧ 0 <= r.2) ranges →
  ∃ rows, gethistogram_words (bin_names ranges) df word_list = inr (df ++ rows)
          ∧ Forall2 (assigned (bin_names ranges)) (filter has_entry word_list) rows.
Proof.
  intros df Hne Hwf. revert df.
  induction word_list as [|w wl IH]; intros df; simpl.
  - exists []. by rewrite app_nil_r.
  - pose proof (gethistogram_step_ok ranges df w Hne Hwf) as Hstep.
    rewrite filter_cons.
    destruct (frequencies w !! "netflix") as [e|] eqn:E.
    + destruct Hstep as (r & -> & Hr). rewrite bind_inr.
      destruct (IH (df ++ [r])) as (rows & -> & Hrows).
      exists (r :: rows). rewrite <- app_assoc. split; [done|].
      rewrite decide_True by (by exists e). by constructor.
    + rewrite Hstep, bind_inr. destruct (IH df) as (rows & -> & Hrows).
      exists rows. split; [done|]. rewrite decide_False; [done|].
      intros [? ?]. congruence.
Qed.

(** Without bins, the first word that carries an entry stops the second
    loop: [getbins] answers [-1], and the empty list has no last
    element. *)
Lemma gethistogram_words_no_bins word_list : ∀ df,
  Exists has_entry word_list →
  gethistogram_words [] df word_list = inl (IndexError "list index out of range").
Proof.
  induction word_list as [|w wl IH]; intros df Hex; [by apply Exists_nil in Hex|].
  simpl. unfold gethistogram_step.
  destruct (frequencies w !! "netflix") as [e|] eqn:E; [done|].
  apply IH.
  apply Exists_cons in Hex as [[? Hw]|Hex]; [|done].
  unfold has_entry in Hw. congruence.
Qed.

Lemma generatebins_small m : m < 500 → generatebins m = [].
Proof.
  intros Hm. unfold generatebins. rewrite generatebins_loop_step.
  by rewrite decide_False by lia.
Qed.

Lemma gethistogram_no_bins word_list :
  getmaximumfreq word_list < 500 → Exists has_entry word_list →
  gethistogram word_list = inl (IndexError "list index out of range").
Proof.
  intros Hm Hex. unfold gethistogram. rewrite generatebins_small by done.
  by apply gethistogram_words_no_bins.
Qed.

(** ** Counting *)

Lemma count_cons `{EqDecision A} (x a : A) (xs : list A) :
  count x (a :: xs) = ((if decide (a = x) then 1 else 0) + count x xs)%nat.
Proof. unfold count. rewrite filter_cons. by destruct (decide (a = x)). Qed.

Lemma sum_list_cons (n : nat) (l : list nat) :
  sum_list (n :: l) = (n + sum_list l)%nat.
Proof. reflexivity. Qed.

Lemma sum_indicator `{EqDecision A} (a : A) (d : list A) :
  NoDup d → a ∈ d →
  sum_list ((λ x, if decide (a = x) then 1 else 0)%nat <$> d) = 1%nat.
Proof.
  induction 1 as [|y d Hy Hd IH]; intros Ha; [by apply elem_of_nil in Ha|].
  rewrite fmap_cons, sum_list_cons. apply elem_of_cons in Ha as [->|Ha].
  - rewrite decide_True by done.
    assert (sum_list ((λ x, if decide (y = x) then 1 else 0)%nat <$> d) = 0%nat) as ->; [|done].
    clear IH Hd. induction d as [|z d IH]; [done|].
    rewrite fmap_cons, sum_list_cons.
    rewrite decide_False by (intros ->; apply Hy; left).
    apply IH. intros ?. apply Hy. by right.
  - rewrite decide_False by (intros ->; done). by rewrite IH.
Qed.

(** The counts of the members of a duplicate-free list that covers [xs]
    add up to the length of [xs]. *)
Lemma sum_count_cover `{EqDecision A} (xs d : list A) :
  NoDup d → (∀ x, x ∈ xs → x ∈ d) →
  sum_list ((λ x, count x xs) <$> d) = length xs.
Proof.
  intros Hd. induction xs as [|a xs IH]; intros Hcover.
  - clear. induction d as [|y d IHd]; [done|].
    by rewrite fmap_cons, sum_list_cons, IHd.
  - assert (sum_list ((λ x, count x (a :: xs)) <$> d)
            = (sum_list ((λ x, if decide (a = x) then 1 else 0)%nat <$> d)
               + sum_list ((λ x, count x xs) <$> d))%nat) as ->.
    { clear. induction d as [|y d IHd]; [done|].
      rewrite !fmap_cons, !sum_list_cons, IHd, count_cons. lia. }
    rewrite sum_indicator; [|done|apply Hcover; left].
    rewrite IH; [done|]. intros x Hx. apply Hcover. by right.
Qed.

(** The bars of the histogram add up to the number of rows. *)
Lemma sum_counts_px_histogram df : sum_counts (px_histogram df) = length df.
Proof.
  unfold sum_counts, px_histogram. rewrite <- list_fmap_compose.
  rewrite <- (length_fmap Range df).
  rewrite <- (sum_count_cover (Range <$> df) (remove_dups (Range <$> df))).
  - done.
  - apply NoDup_remove_dups.
  - intros x. by rewrite elem_of_remove_dups.
Qed.

(** ** The claims about the histogram *)

(** C1 (the code departs from the claim). With the single word "猫" of
    frequency 100 the maximum lies below the bin width and no bin is
    generated, as the claim says; but [gethistogram] then does not return
    an empty result: looking up the bin of the word raises [IndexError]. *)
Theorem gethistogram_zero_bins_raises :
  getmaximumfreq neko_100 < 500
  ∧ generatebins (getmaximumfreq neko_100) = []
  ∧ gethistogram neko_100 = inl (IndexError "list index out of range").
Proof.
  assert (getmaximumfreq neko_100 = 100) as Hm by reflexivity.
  split; [rewrite Hm; lia|]. split.
  - apply generatebins_small. rewrite Hm. lia.
  - apply gethistogram_no_bins; [rewrite Hm; lia|].
    apply Exists_cons_hd. by eexists.
Qed.

(** C2, as stated, fails for the word "猫" of frequency 1200: the frame has
    four rows, three of them in bins that hold no other word. *)
Lemma counts_add_up_fails : ¬ counts_add_up neko_1200.
Proof.
  intros (df & Hdf & Hsum). rewrite sum_counts_px_histogram in Hsum.
  vm_compute in Hdf. injection Hdf as <-. discriminate Hsum.
Qed.

(** C2 (amended). When the largest frequency reaches the bin width, every
    word with an entry adds exactly one row to the frame, and the row
    names one of the generated bins; the bars of the histogram add up to
    the number of these words plus one for each bin and one for the
    initial row. *)
Theorem histogram_rows_cover (word_list : list WordStat) :
  500 <= getmaximumfreq word_list →
  let bins := generatebins (getmaximumfreq word_list) in
  ∃ rows,
    gethistogram word_list = inr (seed_rows bins ++ rows)
    ∧ Forall2 (assigned bins) (filter has_entry word_list) rows
    ∧ sum_counts (px_histogram (seed_rows bins ++ rows))
      = (length (filter has_entry word_list) + length bins + 1)%nat.
Proof.
  intros Hm bins. subst bins. unfold gethistogram.
  rewrite foldl_df_append. change ([_] ++ ?l) with (seed_rows (generatebins (getmaximumfreq word_list))).
  rewrite generatebins_spec.
  set (k := Z.to_nat (getmaximumfreq word_list `div` 500)).
  assert (k ≠ 0%nat) as Hk.
  { pose proof (Z.div_le_lower_bound (getmaximumfreq word_list) 500 1). lia. }
  destruct (gethistogram_words_ok (nth_range <$> seq 0 k) word_list
              (seed_rows (bin_names (nth_range <$> seq 0 k)))) as (rows & -> & Hrows).
  { destruct k; [done|]. done. }
  { apply nth_ranges_wf. }
  exists rows. split; [done|]. split; [done|].
  rewrite sum_counts_px_histogram, length_app.
  apply Forall2_length in Hrows. rewrite Hrows. unfold seed_rows. simpl.
  rewrite length_fmap. lia.
Qed.

(** The amended C2 at the word "猫" of frequency 1200. *)
Lemma histogram_rows_cover_witness :
  ∃ rows,
    gethistogram neko_1200 = inr (seed_rows ["0-500"; "500-1000"] ++ rows)
    ∧ Forall2 (assigned ["0-500"; "500-1000"]) (filter has_entry neko_1200) rows
    ∧ sum_counts (px_histogram (seed_rows ["0-500"; "500-1000"] ++ rows)) = 4%nat.
Proof.
  apply (histogram_rows_cover neko_1200). by vm_compute.
Defined.

(** C3, as stated, fails for the word "猫" of frequency 1200: the two
    bins that are generated end at 1000. *)
Lemma bins_reach_fails :
  ¬ bins_reach (generatebins (getmaximumfreq neko_1200)) (getmaximumfreq neko_1200).
Proof.
  intros (k & Hbins & Hm).
  apply (f_equal length) in Hbins.
  rewrite length_generatebins in Hbins. unfold bin_names in Hbins.
  rewrite !length_fmap, length_seq in Hbins.
  change (getmaximumfreq neko_1200) with 1200 in *.
  change (Z.to_nat (1200 `div` 500)) with 2%nat in Hbins. lia.
Qed.

(** C3 (amended). The generated bins are the ranges [[0, 500)],
    [[500, 1000)], ... of width 500, each starting where the one before
    ends and no two sharing a value; there is one for every whole multiple
    of 500 up to the largest frequency [m] found under the tracked key
    (0 when there is none), so that the last bin ends at the largest
    multiple of 500 that does not exceed [m], less than 500 below it. *)
Theorem generatebins_extent (word_list : list WordStat) :
  let m := getmaximumfreq word_list in
  let k := Z.to_nat (m / 500) in
  generatebins m = bin_names (nth_range <$> seq 0 k)
  ∧ (∀ i, nth_range i = (500 * Z.of_nat i, 500 * Z.of_nat i + 500))
  ∧ (∀ i, (nth_range (S i)).1 = (nth_range i).2)
  ∧ (∀ i j freq, in_range freq (nth_range i) → in_range freq (nth_range j) → i = j)
  ∧ 500 * Z.of_nat k <= m < 500 * Z.of_nat k + 500
  ∧ (∀ w e, w ∈ word_list → frequencies w !! "netflix" = Some e → frequency e <= m)
  ∧ (m = 0 ∨ ∃ w e, w ∈ word_list ∧ frequencies w !! "netflix" = Some e
                    ∧ frequency e = m).
Proof.
  intros m k. destruct (getmaximumfreq_spec word_list) as (H0 & Hub & Hatt).
  fold m in H0, Hub, Hatt.
  split; [apply generatebins_spec|].
  split; [intros i; unfold nth_range; f_equal; lia|].
  split; [intros i; unfold nth_range; simpl; lia|].
  split; [intros i j freq; unfold in_range, nth_range; simpl; lia|].
  split; [|done].
  subst k. rewrite Z2Nat.id by (apply Z.div_pos; lia).
  pose proof (Z.mul_div_le m 500). pose proof (Z.mul_succ_div_gt m 500). lia.
Qed.

(** A frequency above every upper edge finds no bin, and the answer of
    [getbins] selects the last one. *)
Lemma gethistogram_step_last ranges w e df :
  ranges ≠ [] → Forall (λ r, 0 <= r.1 ∧ 0 <= r.2) ranges →
  frequencies w !! "netflix" = Some e →
  (∀ r, r ∈ ranges → r.2 < frequency e) →
  ∃ last_bin,
    last (bin_names ranges) = Some last_bin
    ∧ getbins (frequency e) (bin_names ranges) = inr (len (bin_names ranges) - 1)
    ∧ gethistogram_step (bin_names ranges) df w
      = inr (df ++ [ {| Range := last_bin; Stars := Num (stars e) |} ]).
Proof.
  intros Hne Hwf He Habove.
  assert (getbins (frequency e) (bin_names ranges) = inr (len (bin_names ranges) - 1)) as Hget.
  { rewrite getbins_spec by done.
    destruct (list_find _ ranges) as [[j r]|] eqn:E.
    - apply list_find_Some in E as (Hj & Hin & _).
      apply list_elem_of_lookup_2, Habove in Hj. unfold in_range in Hin. lia.
    - unfold len, bin_names. by rewrite length_fmap. }
  destruct (bin_names ranges) as [|b bs] eqn:Eb using rev_ind.
  { destruct ranges; [done|discriminate]. }
  clear IHbs. exists b. split; [apply last_snoc|]. split; [done|].
  unfold gethistogram_step. rewrite He, Hget, bind_inr.
  assert (py_index (bs ++ [b]) (len (bs ++ [b]) - 1) = inr b) as ->; [|done].
  apply py_index_nonneg.
  - unfold len. rewrite length_app. simpl. lia.
  - unfold len. rewrite length_app. simpl.
    replace (Z.to_nat (Z.of_nat (length bs + 1) - 1)) with (length bs) by lia.
    apply list_lookup_middle. done.
Qed.

(** C8. A frequency above the upper edge of every bin is put into the
    last bin: [getbins] answers the last index, and the row that
    [gethistogram] adds for the word names the last bin. This holds for
    every non-empty list of bins named after ranges with edges from 0 on,
    and so for the bins that [generatebins] makes for a maximum of at
    least 500. In particular, for the word "猫" of frequency 1200 the
    bins are [0-500] and [500-1000], and the row of the word names
    [500-1000]. *)
Theorem getbins_catch_all :
  (∀ ranges w e df,
     ranges ≠ [] → Forall (λ r, 0 <= r.1 ∧ 0 <= r.2) ranges →
     frequencies w !! "netflix" = Some e →
     (∀ r, r ∈ ranges → r.2 < frequency e) →
     ∃ last_bin,
       last (bin_names ranges) = Some last_bin
       ∧ getbins (frequency e) (bin_names ranges) = inr (len (bin_names ranges) - 1)
       ∧ gethistogram_step (bin_names ranges) df w
         = inr (df ++ [ {| Range := last_bin; Stars := Num (stars e) |} ]))
  ∧ (∀ m w e df,
       500 <= m → frequencies w !! "netflix" = Some e →
       500 * len (generatebins m) < frequency e →
       ∃ last_bin,
         last (generatebins m) = Some last_bin
         ∧ getbins (frequency e) (generatebins m) = inr (len (generatebins m) - 1)
         ∧ gethistogram_step (generatebins m) df w
           = inr (df ++ [ {| Range := last_bin; Stars := Num (stars e) |} ]))
  ∧ generatebins (getmaximumfreq neko_1200) = ["0-500"; "500-1000"]
  ∧ getbins 1200 ["0-500"; "500-1000"] = inr 1
  ∧ gethistogram neko_1200
    = inr [ {| Range := "0-500"; Stars := NaN |};
            {| Range := "0-500"; Stars := Num 0 |};
            {| Range := "500-1000"; Stars := Num 0 |};
            {| Range := "500-1000"; Stars := Num 4 |} ].
Proof.
  split; [intros; by apply gethistogram_step_last|].
  split; [|by vm_compute].
  intros m w e df Hm He Habove.
  unfold len in Habove. rewrite length_generatebins in Habove.
  rewrite generatebins_spec.
  set (k := Z.to_nat (m `div` 500)) in *.
  assert (k ≠ 0%nat) as Hk.
  { pose proof (Z.div_le_lower_bound m 500 1). lia. }
  apply gethistogram_step_last; [by destruct k|apply nth_ranges_wf|done|].
  intros r (i & -> & Hi)%list_elem_of_fmap.
  apply elem_of_seq in Hi. unfold nth_range. simpl. lia.
Qed.

(** The scenario of C8 through the general statement. *)
Lemma getbins_catch_all_witness :
  ∃ last_bin,
    last ["0-500"; "500-1000"] = Some last_bin
    ∧ getbins 1200 ["0-500"; "500-1000"] = inr 1
    ∧ gethistogram_step ["0-500"; "500-1000"] [] (netflix_word "猫" 3 1200 4)
      = inr [ {| Range := last_bin; Stars := Num 4 |} ].
Proof.
  apply (proj1 getbins_catch_all [(0, 500); (500, 1000)]
           (netflix_word "猫" 3 1200 4) {| frequency := 1200; stars := 4 |} []).
  - done.
  - repeat constructor; simpl; lia.
  - reflexivity.
  - intros r Hr. simpl. rewrite !elem_of_cons, elem_of_nil in Hr.
    destruct Hr as [->|[->|[]]]; simpl; lia.
Defined.

(** C10, as stated, fails for the single bin from -5 to 3: its name
    splits at the sign as well, and reading the lower edge raises a
    [ValueError]. *)
Lemma getbins_negative_edge_fails :
  Forall (λ r, r.1 < r.2) [(-5, 3)]
  ∧ bin_names [(-5, 3)] = ["-5-3"]
  ∧ getbins 0 (bin_names [(-5, 3)])
    = inl (ValueError "invalid literal for int() with base 10: ''").
Proof. split; [repeat constructor; simpl; lia|]. split; reflexivity. Qed.

(** C10 (amended). For a non-empty list of bins named after ranges
    [[a, b)] with [0 <= a < b] and every frequency, [getbins] returns an
    index between 0 and [len(bins) - 1], at which the list of bins can be
    read: the index of the first bin whose range holds the frequency, or
    [len(bins) - 1] when no range holds it. *)
Theorem getbins_index_valid (ranges : list (Z * Z)) (freq : Z) :
  ranges ≠ [] → Forall (λ r, 0 <= r.1 < r.2) ranges →
  ∃ i,
    getbins freq (bin_names ranges) = inr i
    ∧ 0 <= i <= len (bin_names ranges) - 1
    ∧ (∃ bin, py_index (bin_names ranges) i = inr bin)
    ∧ ((∃ r, ranges !! Z.to_nat i = Some r ∧ in_range freq r
             ∧ ∀ j r', ranges !! j = Some r' → (j < Z.to_nat i)%nat → ¬ in_range freq r')
       ∨ (i = len (bin_names ranges) - 1 ∧ ∀ r, r ∈ ranges → ¬ in_range freq r)).
Proof.
  intros Hne Hwf0.
  assert (Forall (λ r, 0 <= r.1 ∧ 0 <= r.2) ranges) as Hwf.
  { eapply Forall_impl; [done|]. simpl. lia. }
  assert (len (bin_names ranges) = len ranges) as Hlen.
  { unfold len, bin_names. by rewrite length_fmap. }
  destruct (getbins_in_range freq ranges Hne Hwf) as (i & Hget & Hi).
  exists i. split; [done|]. split; [lia|]. split.
  { destruct (py_index_in_range (bin_names ranges) i) as (b & _ & ->); [lia|eauto]. }
  rewrite getbins_spec in Hget by done.
  destruct (list_find _ ranges) as [[j r]|] eqn:E; injection Hget as <-.
  - left. apply list_find_Some in E as (Hj & Hin & Hfirst).
    exists r. rewrite Nat2Z.id. split_and!; [done..|].
    intros j' r' Hj' Hlt. by eapply Hfirst.
  - right. split; [lia|]. intros r Hr.
    rewrite list_find_None, Forall_forall in E. by apply E.
Qed.

(** The amended C10 at the frequency 700 and the two bins of the scenario. *)
Lemma getbins_index_valid_witness :
  ∃ i,
    getbins 700 ["0-500"; "500-1000"] = inr i
    ∧ 0 <= i <= 1
    ∧ (∃ bin, py_index ["0-500"; "500-1000"] i = inr bin)
    ∧ ((∃ r, [(0, 500); (500, 1000)] !! Z.to_nat i = Some r ∧ in_range 700 r
             ∧ ∀ j r', [(0, 500); (500, 1000)] !! j = Some r' →
                       (j < Z.to_nat i)%nat → ¬ in_range 700 r')
       ∨ (i = 1 ∧ ∀ r, r ∈ [(0, 500); (500, 1000)] → ¬ in_range 700 r)).
Proof.
  apply (getbins_index_valid [(0, 500); (500, 1000)] 700).
  - done.
  - repeat constructor; simpl; lia.
Defined.

(** ** Sorting by uses *)

Section Sorting.
Context {A : Type}.
Implicit Types (x : A * nat) (l : list (A * nat)).

Lemma insert_desc_perm x l : insert_desc x l ≡ₚ x :: l.
Proof.
  induction l as [|y l IH]; simpl; [done|].
  destruct (decide (snd x < snd y)%nat); [|done].
  rewrite IH. apply Permutation_swap.
Qed.

Lemma sorted_desc_perm l : sorted_desc l ≡ₚ l.
Proof.
  induction l as [|x l IH]; simpl; [done|].
  by rewrite insert_desc_perm, IH.
Qed.

Lemma insert_desc_HdRel x y l :
  by_uses y x → HdRel by_uses y l → HdRel by_uses y (insert_desc x l).
Proof.
  intros Hyx Hl. destruct l as [|z l]; simpl; [by constructor|].
  destruct (decide (snd x < snd z)%nat); constructor; [|done].
  by inversion Hl.
Qed.

Lemma insert_desc_sorted x l : Sorted by_uses l → Sorted by_uses (insert_desc x l).
Proof.
  induction 1 as [|y l Hl IH Hy]; simpl; [by repeat constructor|].
  destruct (decide (snd x < snd y)%nat).
  - constructor; [done|]. apply insert_desc_HdRel; [|done]. unfold by_uses. lia.
  - constructor; [by constructor|]. constructor. unfold by_uses. lia.
Qed.

Lemma sorted_desc_sorted l : Sorted by_uses (sorted_desc l).
Proof.
  induction l as [|x l IH]; simpl; [constructor|]. by apply insert_desc_sorted.
Qed.

Lemma sorted_desc_strongly_sorted l : StronglySorted by_uses (sorted_desc l).
Proof.
  apply Sorted.Sorted_StronglySorted; [|apply sorted_desc_sorted].
  intros p q r. unfold by_uses. lia.
Qed.

(** The counts of a sorted list depend on the members only, not on the
    order in which they were handed to [sorted_desc]. *)
Lemma sorted_desc_keys l1 l2 :
  l1 ≡ₚ l2 → snd <$> sorted_desc l1 = snd <$> sorted_desc l2.
Proof.
  intros Hperm.
  apply (StronglySorted_unique_strong (λ a b : nat, (b <= a)%nat)).
  - intros. lia.
  - apply (StronglySorted_fmap _ by_uses); [done|apply sorted_desc_strongly_sorted].
  - apply (StronglySorted_fmap _ by_uses); [done|apply sorted_desc_strongly_sorted].
  - by rewrite !sorted_desc_perm, Hperm.
Qed.
End Sorting.

(** ** Distinct members and their counts *)

Section Uses.
Context `{EqDecision A}.
Implicit Types (xs : list A).

Lemma set_iter_perm (I1 I2 : SetIter A) xs :
  @set_iter A I1 xs ≡ₚ @set_iter A I2 xs.
Proof.
  apply NoDup_Permutation; [apply set_iter_NoDup..|].
  intros x. by rewrite !set_iter_elem.
Qed.

Lemma set_iter_remove_dups `{!SetIter A} xs : set_iter xs ≡ₚ remove_dups xs.
Proof. apply (set_iter_perm _ iter_forward). Qed.

Lemma with_uses_perm `{!SetIter A} xs :
  with_uses xs ≡ₚ (λ x, (x, count x xs)) <$> remove_dups xs.
Proof.
  unfold with_uses. by rewrite sorted_desc_perm, set_iter_remove_dups.
Qed.

Lemma length_set_iter `{!SetIter A} xs :
  length (set_iter xs) = length (remove_dups xs).
Proof. by rewrite set_iter_remove_dups. Qed.

Lemma length_remove_dups xs : (length (remove_dups xs) <= length xs)%nat.
Proof.
  induction xs as [|x xs IH]; simpl; [done|].
  destruct (decide_rel elem_of x xs); simpl; lia.
Qed.

Lemma length_used_once `{!SetIter A} xs :
  length (used_once_of (with_uses xs))
  = length (filter (λ x, count x xs = 1%nat) (remove_dups xs)).
Proof.
  unfold used_once_of. rewrite length_fmap, with_uses_perm.
  generalize (remove_dups xs). intros d.
  induction d as [|y d IH]; [done|].
  rewrite fmap_cons. destruct (decide (count y xs = 1%nat)).
  - rewrite !filter_cons_True by done. simpl. by rewrite IH.
  - by rewrite !filter_cons_False by done.
Qed.

Lemma sum_with_uses `{!SetIter A} xs :
  sum_list (snd <$> with_uses xs) = length xs.
Proof.
  rewrite with_uses_perm, <- list_fmap_compose.
  apply sum_count_cover; [apply NoDup_remove_dups|].
  intros x. by rewrite elem_of_remove_dups.
Qed.

Lemma with_uses_keys (I1 I2 : SetIter A) xs :
  snd <$> @with_uses A _ I1 xs = snd <$> @with_uses A _ I2 xs.
Proof.
  unfold with_uses. apply sorted_desc_keys.
  by rewrite (set_iter_perm I1 I2).
Qed.

Lemma with_uses_perm_any (I1 I2 : SetIter A) xs :
  @with_uses A _ I1 xs ≡ₚ @with_uses A _ I2 xs.
Proof. by rewrite !with_uses_perm. Qed.
End Uses.

(** ** The claims about the analysis *)

Section AnalysisClaims.
Context (C : SetIter codepoint) (W : SetIter string).
Variable get_frequency : string → gmap string FrequencyEntry.
Variables (book : Book.t) (text : list codepoint) (tokens : list string).

Lemma words_ocurrences :
  ocurrences <$> words (analyse get_frequency book text tokens)
  = snd <$> with_uses tokens.
Proof. simpl. unfold word_list_of. by rewrite <- list_fmap_compose. Qed.

Lemma chars_occurences :
  occurences <$> chars (analyse get_frequency book text tokens)
  = snd <$> with_uses text.
Proof. simpl. unfold char_list_of. by rewrite <- list_fmap_compose. Qed.

(** C4. [n_words] is the number of tokens, [n_words_unique] the number of
    distinct words and [n_words_used_once] the number of distinct words
    that occur exactly once; the three are ordered as
    [n_words_used_once <= n_words_unique <= n_words]; the same holds for
    the characters of the text; and the tokens of the scenario give
    [n_words = 8], [n_words_unique = 5] and [n_words_used_once = 3]. *)
Theorem analyse_counts :
  let r := analyse get_frequency book text tokens in
  let s := analyse get_frequency book text scenario_tokens in
  n_words r = length tokens
  ∧ n_words_unique r = length (remove_dups tokens)
  ∧ n_words_used_once r
    = length (filter (λ w, count w tokens = 1%nat) (remove_dups tokens))
  ∧ (n_words_used_once r <= n_words_unique r <= n_words r)%nat
  ∧ n_chars r = length text
  ∧ n_chars_unique r = length (remove_dups text)
  ∧ n_chars_used_once r
    = length (filter (λ c, count c text = 1%nat) (remove_dups text))
  ∧ (n_chars_used_once r <= n_chars_unique r <= n_chars r)%nat
  ∧ n_words s = 8%nat ∧ n_words_unique s = 5%nat ∧ n_words_used_once s = 3%nat.
Proof.
  intros r s. subst r s. simpl.
  rewrite !length_used_once, !length_set_iter.
  pose proof (length_remove_dups tokens). pose proof (length_remove_dups text).
  pose proof (length_filter (λ w, count w tokens = 1%nat) (remove_dups tokens)).
  pose proof (length_filter (λ c, count c text = 1%nat) (remove_dups text)).
  split_and!; try done; lia.
Qed.

(** C5. The occurrence counts of the characters add up to the number of
    code points of the text, and those of the words to the number of
    tokens. *)
Theorem analyse_sums :
  let r := analyse get_frequency book text tokens in
  sum_list (occurences <$> chars r) = length text
  ∧ sum_list (ocurrences <$> words r) = length tokens.
Proof.
  intros r. subst r. rewrite chars_occurences, words_ocurrences.
  by rewrite !sum_with_uses.
Qed.

(** C6. In [words] and in [chars] no element has a larger occurrence
    count than an element before it. *)
Theorem analyse_sorted :
  let r := analyse get_frequency book text tokens in
  StronglySorted (λ a b, (ocurrences b <= ocurrences a)%nat) (words r)
  ∧ StronglySorted (λ a b, (occurences b <= occurences a)%nat) (chars r).
Proof.
  intros r. subst r. simpl. split.
  - apply (StronglySorted_fmap _ by_uses); [done|].
    apply sorted_desc_strongly_sorted.
  - apply (StronglySorted_fmap _ by_uses); [done|].
    apply sorted_desc_strongly_sorted.
Qed.
End AnalysisClaims.

(** C7, as stated, fails for two words that are used once each: a run
    in which the set of words is iterated one way and a run in which it
    is iterated the other way list the two words in different orders. *)
Lemma analyse_order_differs :
  @analyse iter_forward iter_forward (λ _, ∅) some_book [] two_words
  ≠ @analyse iter_forward iter_backward (λ _, ∅) some_book [] two_words.
Proof. intros H. apply (f_equal words) in H. vm_compute in H. discriminate H. Qed.

(** C7 (amended). Two runs on the same text, tokens and frequency lists
    agree on every count, on the multiset of the entries of [words] and of
    [chars] and on the sequence of their occurrence counts; they agree
    on the whole result when both iterate the set of distinct words and
    the set of distinct characters in the same order. The order of
    entries with equal counts is the order in which the set yields them,
    which the analysis does not fix. *)
Theorem analyse_up_to_ties (C1 C2 : SetIter codepoint) (W1 W2 : SetIter string)
  (get_frequency : string → gmap string FrequencyEntry)
  (book : Book.t) (text : list codepoint) (tokens : list string) :
  let r1 := @analyse C1 W1 get_frequency book text tokens in
  let r2 := @analyse C2 W2 get_frequency book text tokens in
  (title r1, authors r1, image r1, file_hash r1)
  = (title r2, authors r2, image r2, file_hash r2)
  ∧ (n_words r1, n_words_unique r1, n_words_used_once r1)
    = (n_words r2, n_words_unique r2, n_words_used_once r2)
  ∧ (n_chars r1, n_chars_unique r1, n_chars_used_once r1)
    = (n_chars r2, n_chars_unique r2, n_chars_used_once r2)
  ∧ words r1 ≡ₚ words r2
  ∧ ocurrences <$> words r1 = ocurrences <$> words r2
  ∧ chars r1 ≡ₚ chars r2
  ∧ occurences <$> chars r1 = occurences <$> chars r2
  ∧ (@set_iter _ W1 tokens = @set_iter _ W2 tokens →
     @set_iter _ C1 text = @set_iter _ C2 text → r1 = r2).
Proof.
  intros r1 r2. split; [done|].
  split; [subst r1 r2; simpl; by rewrite !length_used_once, !length_set_iter|].
  split; [subst r1 r2; simpl; by rewrite !length_used_once, !length_set_iter|].
  split; [subst r1 r2; simpl; unfold word_list_of;
          by rewrite (with_uses_perm_any W1 W2)|].
  split; [subst r1 r2; rewrite !words_ocurrences; apply with_uses_keys|].
  split; [subst r1 r2; simpl; unfold char_list_of;
          by rewrite (with_uses_perm_any C1 C2)|].
  split; [subst r1 r2; rewrite !chars_occurences; apply with_uses_keys|].
  intros HW HC. subst r1 r2. unfold analyse, with_uses. by rewrite HW, HC.
Qed.

(** The amended C7 at the scenario, and at the two words used once. *)
Lemma analyse_up_to_ties_witness :
  @analyse iter_forward iter_forward (λ _, ∅) some_book scenario_text scenario_tokens
  = @analyse iter_forward iter_forward (λ _, ∅) some_book scenario_text scenario_tokens
  ∧ words (@analyse iter_forward iter_forward (λ _, ∅) some_book [] two_words)
    ≡ₚ words (@analyse iter_forward iter_backward (λ _, ∅) some_book [] two_words).
Proof.
  split.
  - apply (analyse_up_to_ties iter_forward iter_forward iter_forward iter_forward
             (λ _, ∅) some_book scenario_text scenario_tokens); reflexivity.
  - apply (analyse_up_to_ties iter_forward iter_forward iter_forward iter_backward
             (λ _, ∅) some_book [] two_words).
Defined.

(** ** Processing a file *)

Section FilesClaims.
Variable env : Env.

Lemma sha256sum_error filename e :
  sha256sum env filename = inl e →
  (∃ msg, e = OSError msg) ∨ e = ValueError "cannot mmap an empty file".
Proof.
  unfold sha256sum. destruct (open_rb env filename) as [data|].
  - destruct (decide (data = EmptyString)); [|discriminate].
    intros [= <-]. by right.
  - intros [= <-]. left. by eexists.
Qed.

Lemma call_error {A} (o : outcome A) e :
  call o = inl e → ∃ msg, e = CollaboratorError msg.
Proof. destruct o; [|discriminate]. intros [= <-]. by eexists. Qed.

(** [process_epub] fails only where one of its collaborators fails. *)
Lemma process_epub_error filename book_dir file_hash e :
  process_epub env filename book_dir file_hash = inl e →
  ∃ msg, e = CollaboratorError msg.
Proof.
  unfold process_epub.
  destruct (call (remove_ruby_text_from_epub env _ _)) as [e1|book_path] eqn:E1.
  { intros [= <-]. by eapply call_error. }
  rewrite bind_inr.
  destruct (call (get_epub_metadata env _)) as [e2|meta] eqn:E2.
  { intros [= <-]. by eapply call_error. }
  rewrite bind_inr.
  destruct (call (save_base64_image env _ _)) as [e3|image_path] eqn:E3.
  { intros [= <-]. by eapply call_error. }
  rewrite bind_inr.
  destruct (call (convert_epub_to_txt env _)) as [e4|txt_file] eqn:E4.
  { intros [= <-]. by eapply call_error. }
  discriminate.
Qed.

(** [process_txt] always returns a book. *)
Lemma process_txt_ok filename book_dir file_hash :
  ∃ book, process_txt filename book_dir file_hash = inr book.
Proof.
  unfold process_txt.
  destruct (split_last "." filename) as [ext ->].
  destruct (split_last "/" filename) as [name ->].
  by eexists.
Qed.

(** C9 (amended). A file name has a last piece after its dots. When this
    extension is neither [epub] nor [txt], [process_file] returns no book:
    it raises the [ValueError] that names the allowed extensions whenever
    the hash of the file can be computed, and the error of the hash
    computation otherwise. For the extensions [epub] and [txt] it never
    raises this [ValueError]. *)
Theorem process_file_extension (filename : string) :
  ∃ extension,
    py_index (split "." filename) (-1) = inr extension
    ∧ (extension ≠ "epub" → extension ≠ "txt" →
       (∀ book, process_file env filename ≠ inr book)
       ∧ (∀ file_hash, sha256sum env filename = inr file_hash →
                       process_file env filename = inl extension_error)
       ∧ (∀ e, sha256sum env filename = inl e → process_file env filename = inl e))
    ∧ (extension = "epub" ∨ extension = "txt" →
       process_file env filename ≠ inl extension_error).
Proof.
  destruct (split_last "." filename) as [extension Hext].
  exists extension. split; [done|]. unfold process_file. rewrite Hext, bind_inr.
  split.
  - intros Hepub Htxt.
    destruct (sha256sum env filename) as [e|file_hash]; rewrite ?bind_inr, ?bind_inl.
    + split_and!; [discriminate|discriminate|]. by intros ? [= <-].
    + rewrite !decide_False by done. split_and!; [discriminate| |discriminate]. done.
  - intros Hallowed.
    destruct (sha256sum env filename) as [e|file_hash] eqn:Hhash;
      rewrite ?bind_inr, ?bind_inl.
    + intros [= ->]. by destruct (sha256sum_error _ _ Hhash) as [[? ?]|?].
    + destruct Hallowed as [->| ->].
      * rewrite decide_True by done. intros He.
        by destruct (process_epub_error _ _ _ _ He).
      * rewrite decide_False by done. rewrite decide_True by done.
        by destruct (process_txt_ok filename ("static/books/" +:+ file_hash) file_hash) as [book ->].
Qed.
End FilesClaims.

(** C9, as stated, fails for a file that cannot be opened: the hash is
    computed before the extension is looked at, and it is the error of
    [open] that reaches the caller. *)
Lemma process_file_missing_file :
  py_index (split "." "book.pdf") (-1) = inr "pdf"
  ∧ process_file no_files "book.pdf"
    = inl (OSError "No such file or directory: 'book.pdf'")
  ∧ process_file no_files "book.pdf" ≠ inl extension_error.
Proof. split_and!; [reflexivity..|discriminate]. Qed.

(** Where the file can be read, the extension decides. *)
Example process_file_pdf :
  process_file scenario_env "book.pdf" = inl extension_error.
Proof. reflexivity. Qed.

Example process_file_txt :
  process_file scenario_env "uploads/book.v2.txt"
  = inr {| Book.path := "uploads/book.v2.txt"; Book.title := "book.v2";
           Book.authors := []; Book.image := ""; Book.file_hash := "00";
           Book.book_dir := "static/books/00" |}.
Proof. reflexivity. Qed.

(** The defect behind C1 reaches the caller of [analyse_ebook]: the only
    word with an entry has frequency 100, no bin is generated, and the
    dictionary that was built is not returned. *)
Example analyse_ebook_zero_bins :
  analyse_ebook scenario_env "book.txt" = inl (IndexError "list index out of range").
Proof. by vm_compute. Qed.

(** * Further properties of the code *)

(** ** Bins and their indices *)

Lemma bin_names_lookup_nth (k i : nat) :
  (i < k)%nat →
  bin_names (nth_range <$> seq 0 k) !! i
  = Some (str (500 * Z.of_nat i) +:+ "-" +:+ str (500 * Z.of_nat i + 500)).
Proof.
  intros Hi. unfold bin_names. rewrite !list_lookup_fmap.
  rewrite lookup_seq_lt by done. simpl. unfold bin_name, nth_range. simpl.
  do 4 f_equal. lia.
Qed.

(** X1. [generatebins] ends for every integer: it makes [maximum_num / 500]
    bins (none for a negative number), the list is empty exactly when
    [maximum_num < 500], and the bin at position [i] is named after the
    range from [500 * i] to [500 * i + 500]. *)
Theorem generatebins_count (maximum_num : Z) :
  length (generatebins maximum_num) = Z.to_nat (maximum_num / 500)
  ∧ (generatebins maximum_num = [] ↔ maximum_num < 500)
  ∧ (∀ i : nat, (i < Z.to_nat (maximum_num / 500))%nat →
       generatebins maximum_num !! i
       = Some (str (500 * Z.of_nat i) +:+ "-" +:+ str (500 * Z.of_nat i + 500))).
Proof.
  split; [apply length_generatebins|]. split.
  - split; [|apply generatebins_small].
    intros Hnil. apply (f_equal length) in Hnil.
    rewrite length_generatebins in Hnil. simpl in Hnil.
    destruct (decide (maximum_num < 500)); [done|].
    pose proof (Z.div_le_lower_bound maximum_num 500 1). lia.
  - intros i Hi. rewrite generatebins_spec. by apply bin_names_lookup_nth.
Qed.

(** X2. A larger maximum only adds bins at the end: the bins for
    [m] are the first bins for every [m'] from [m] on. *)
Theorem generatebins_prefix (m m' : Z) :
  m <= m' → generatebins m `prefix_of` generatebins m'.
Proof.
  intros Hm. rewrite !generatebins_spec.
  pose proof (Z.div_le_mono m m' 500) as Hdiv.
  set (k := Z.to_nat (m / 500)). set (k' := Z.to_nat (m' / 500)).
  replace k' with (k + (k' - k))%nat by lia.
  rewrite seq_app. unfold bin_names. rewrite !fmap_app.
  by eexists.
Qed.

(** The bins for 700 open the bins for 1200. *)
Lemma generatebins_prefix_witness : generatebins 700 `prefix_of` generatebins 1200.
Proof. apply (generatebins_prefix 700 1200). lia. Defined.

Lemma list_find_nth_range (freq : Z) (k : nat) :
  list_find (in_range freq) (nth_range <$> seq 0 k)
  = if decide (0 <= freq < 500 * Z.of_nat k)
    then Some (Z.to_nat (freq / 500), nth_range (Z.to_nat (freq / 500)))
    else None.
Proof.
  destruct (decide (0 <= freq < 500 * Z.of_nat k)) as [Hin|Hout].
  - pose proof (Z.mul_div_le freq 500). pose proof (Z.mul_succ_div_gt freq 500).
    assert (0 <= freq / 500) by (apply Z.div_pos; lia).
    assert (freq / 500 < Z.of_nat k) by (apply Z.div_lt_upper_bound; lia).
    apply list_find_Some. split_and!.
    + rewrite list_lookup_fmap, lookup_seq_lt by lia. done.
    + unfold in_range, nth_range. simpl. lia.
    + intros j r Hj Hlt Hr.
      rewrite list_lookup_fmap in Hj.
      destruct (seq 0 k !! j) as [j'|] eqn:Ej; [|done].
      apply lookup_seq in Ej as [-> _]. injection Hj as <-.
      unfold in_range, nth_range in Hr. simpl in Hr. lia.
  - apply list_find_None, Forall_fmap, Forall_forall.
    intros i Hi%elem_of_seq. unfold in_range, nth_range. simpl. lia.
Qed.

(** X3. On the bins that [generatebins] makes, [getbins] is a division:
    a frequency from 0 up to the end of the last bin gets the index
    [freq / 500], and every other frequency, a negative one as well, the
    index of the last bin, which is [-1] when there is no bin. *)
Theorem getbins_generatebins (maximum_num freq : Z) :
  let k := len (generatebins maximum_num) in
  getbins freq (generatebins maximum_num)
  = inr (if decide (0 <= freq < 500 * k) then freq / 500 else k - 1).
Proof.
  intros k. subst k. unfold len. rewrite length_generatebins.
  rewrite generatebins_spec, getbins_spec by apply nth_ranges_wf.
  rewrite list_find_nth_range. unfold len. rewrite length_fmap, length_seq.
  destruct (decide (0 <= freq < 500 * Z.of_nat (Z.to_nat (maximum_num / 500)))); [|done].
  f_equal. apply Z2Nat.id, Z.div_pos; lia.
Qed.

(** ** The largest frequency *)

Lemma maximum_foldl_max (word_list : list WordStat) : ∀ acc,
  0 <= acc →
  foldl (λ maximum_num i,
           match frequencies i !! "netflix" with
           | Some e => Z.max maximum_num (frequency e)
           | None => maximum_num
           end) acc word_list
  = Z.max acc (getmaximumfreq word_list).
Proof.
  unfold getmaximumfreq.
  induction word_list as [|w wl IH]; intros acc Hacc; simpl; [lia|].
  destruct (frequencies w !! "netflix") as [e|].
  - rewrite (IH (Z.max acc (frequency e))), (IH (Z.max 0 (frequency e))) by lia. lia.
  - rewrite (IH acc) by done. done.
Qed.

Lemma getmaximumfreq_nonneg word_list : 0 <= getmaximumfreq word_list.
Proof. apply getmaximumfreq_spec. Qed.

Lemma getmaximumfreq_cons w word_list :
  getmaximumfreq (w :: word_list)
  = Z.max (getmaximumfreq [w]) (getmaximumfreq word_list).
Proof.
  unfold getmaximumfreq at 1 2. simpl.
  destruct (frequencies w !! "netflix") as [e|].
  - apply maximum_foldl_max. lia.
  - rewrite maximum_foldl_max by done. done.
Qed.

(** X4. The largest frequency of two word lists put together is the
    larger of their largest frequencies, and words without an entry under
    the tracked key do not change it. *)
Theorem getmaximumfreq_app (l1 l2 : list WordStat) :
  getmaximumfreq (l1 ++ l2) = Z.max (getmaximumfreq l1) (getmaximumfreq l2)
  ∧ getmaximumfreq (filter has_entry l1) = getmaximumfreq l1.
Proof.
  split.
  - induction l1 as [|w l1 IH]; simpl.
    + pose proof (getmaximumfreq_nonneg l2). change (getmaximumfreq []) with 0. lia.
    + rewrite (getmaximumfreq_cons w (l1 ++ l2)), (getmaximumfreq_cons w l1), IH. lia.
  - induction l1 as [|w l1 IH]; [done|].
    rewrite filter_cons. destruct (decide (has_entry w)) as [Hw|Hw].
    + by rewrite (getmaximumfreq_cons w (filter _ _)), (getmaximumfreq_cons w l1), IH.
    + rewrite (getmaximumfreq_cons w l1), IH.
      assert (getmaximumfreq [w] = 0) as ->.
      { unfold getmaximumfreq. simpl.
        destruct (frequencies w !! "netflix") as [e|] eqn:E; [|done].
        destruct Hw. by exists e. }
      pose proof (getmaximumfreq_nonneg l1). lia.
Qed.

(** X5. The largest frequency does not depend on the order of the word
    list. *)
Theorem getmaximumfreq_perm (l1 l2 : list WordStat) :
  l1 ≡ₚ l2 → getmaximumfreq l1 = getmaximumfreq l2.
Proof.
  induction 1 as [|w l1 l2 _ IH|w w' l|l1 l2 l3 _ IH1 _ IH2].
  - done.
  - by rewrite (getmaximumfreq_cons w l1), (getmaximumfreq_cons w l2), IH.
  - rewrite (getmaximumfreq_cons w' (w :: l)), (getmaximumfreq_cons w l).
    rewrite (getmaximumfreq_cons w (w' :: l)), (getmaximumfreq_cons w' l). lia.
  - by rewrite IH1.
Qed.

(** Two words in either order. *)
Lemma getmaximumfreq_perm_witness :
  getmaximumfreq [netflix_word "猫" 3 1200 4; netflix_word "犬" 1 700 2]
  = getmaximumfreq [netflix_word "犬" 1 700 2; netflix_word "猫" 3 1200 4].
Proof. apply getmaximumfreq_perm, Permutation_swap. Defined.

(** ** What [gethistogram] returns *)

Lemma gethistogram_words_no_entries bins word_list : ∀ df,
  Forall (λ w, ¬ has_entry w) word_list →
  gethistogram_words bins df word_list = inr df.
Proof.
  induction word_list as [|w wl IH]; intros df Hno; [done|].
  apply Forall_cons in Hno as [Hw Hno]. simpl. unfold gethistogram_step.
  destruct (frequencies w !! "netflix") as [e|] eqn:E.
  - destruct Hw. by exists e.
  - by apply IH.
Qed.

Lemma getmaximumfreq_no_entries word_list :
  Forall (λ w, ¬ has_entry w) word_list → getmaximumfreq word_list = 0.
Proof.
  intros Hno. destruct (getmaximumfreq_spec word_list) as (_ & _ & [H|(w & e & Hw & He & _)]).
  - done.
  - rewrite Forall_forall in Hno. destruct (Hno w Hw). by exists e.
Qed.

(** [gethistogram] returns a frame when a bin is generated, and when no
    word has an entry. *)
Lemma gethistogram_ok (word_list : list WordStat) :
  500 <= getmaximumfreq word_list ∨ Forall (λ w, ¬ has_entry w) word_list →
  ∃ df, gethistogram word_list = inr df.
Proof.
  intros [Hm|Hno]; unfold gethistogram.
  - rewrite foldl_df_append, generatebins_spec.
    set (k := Z.to_nat (getmaximumfreq word_list `div` 500)).
    assert (k ≠ 0%nat) as Hk.
    { pose proof (Z.div_le_lower_bound (getmaximumfreq word_list) 500 1). lia. }
    edestruct (gethistogram_words_ok (nth_range <$> seq 0 k) word_list)
      as (rows & -> & _); [by destruct k|apply nth_ranges_wf|by eexists].
  - rewrite gethistogram_words_no_entries by done. by eexists.
Qed.

(** X6. [gethistogram] fails in one way only: it raises [IndexError]
    exactly when some word has an entry under the tracked key and the
    largest frequency is below 500. In every other case it returns a
    frame. *)
Theorem gethistogram_outcome (word_list : list WordStat) :
  (∀ e, gethistogram word_list = inl e ↔
        e = IndexError "list index out of range"
        ∧ getmaximumfreq word_list < 500 ∧ Exists has_entry word_list)
  ∧ ((500 <= getmaximumfreq word_list ∨ Forall (λ w, ¬ has_entry w) word_list) →
     ∃ df, gethistogram word_list = inr df).
Proof.
  pose proof (gethistogram_ok word_list) as Hok.
  split; [|done]. intros e. split.
  - intros He.
    destruct (decide (500 <= getmaximumfreq word_list)) as [Hm|Hm].
    { destruct Hok as [df Hdf]; [by left|congruence]. }
    destruct (decide (Exists has_entry word_list)) as [Hex|Hex].
    + rewrite gethistogram_no_bins in He by (done || lia).
      injection He as <-. split_and!; [done|lia|done].
    + apply not_Exists_Forall in Hex; [|intros w; apply _].
      destruct Hok as [df Hdf]; [by right|congruence].
  - intros (-> & Hm & Hex). by apply gethistogram_no_bins.
Qed.

(** X7. For a word list without any entry under the tracked key, the
    empty list among them, no bin is generated and the frame holds the
    single row [0-500] it starts with. *)
Theorem gethistogram_no_entries (word_list : list WordStat) :
  Forall (λ w, ¬ has_entry w) word_list →
  generatebins (getmaximumfreq word_list) = []
  ∧ gethistogram word_list = inr [ {| Range := "0-500"; Stars := NaN |} ]
  ∧ px_histogram [ {| Range := "0-500"; Stars := NaN |} ] = [("0-500", 1%nat)].
Proof.
  intros Hno. rewrite (getmaximumfreq_no_entries _ Hno).
  split; [by apply generatebins_small|]. split; [|reflexivity].
  unfold gethistogram. rewrite (getmaximumfreq_no_entries _ Hno).
  rewrite generatebins_small by lia. simpl.
  by apply gethistogram_words_no_entries.
Qed.

(** A list of two words that no frequency list knows. *)
Lemma gethistogram_no_entries_witness :
  gethistogram [plain_word "が" 1; plain_word "を" 1]
  = inr [ {| Range := "0-500"; Stars := NaN |} ].
Proof.
  apply (gethistogram_no_entries [plain_word "が" 1; plain_word "を" 1]).
  repeat constructor; intros [e He]; discriminate He.
Defined.

(** ** The bin of a word *)

Lemma generatebins_nonempty m : 500 <= m → (0 < Z.to_nat (m / 500))%nat.
Proof. intros Hm. pose proof (Z.div_le_lower_bound m 500 1). lia. Qed.

(** The index that [getbins] finds among the generated bins, and the
    bin that is read at it. *)
Lemma generated_bin_lookup (m f : Z) :
  500 <= m →
  let k := len (generatebins m) in
  let j := if decide (0 <= f < 500 * k) then f / 500 else k - 1 in
  0 <= j < k
  ∧ getbins f (generatebins m) = inr j
  ∧ py_index (generatebins m) j = inr (str (500 * j) +:+ "-" +:+ str (500 * j + 500)).
Proof.
  intros Hm k j. pose proof (generatebins_nonempty m Hm) as Hk.
  assert (k = Z.of_nat (Z.to_nat (m / 500))) as Hlen.
  { subst k. unfold len. by rewrite length_generatebins. }
  assert (0 <= j < k) as Hj.
  { subst j. destruct (decide (0 <= f < 500 * k)) as [Hin|_]; [|lia].
    split; [apply Z.div_pos; lia|apply Z.div_lt_upper_bound; lia]. }
  split; [done|]. split.
  - rewrite generatebins_spec, getbins_spec by apply nth_ranges_wf.
    rewrite list_find_nth_range. unfold len. rewrite length_fmap, length_seq.
    subst j. rewrite Hlen.
    destruct (decide (0 <= f < 500 * Z.of_nat (Z.to_nat (m / 500)))); [|done].
    f_equal. apply Z2Nat.id, Z.div_pos; lia.
  - apply py_index_nonneg; [lia|].
    rewrite generatebins_spec, bin_names_lookup_nth by lia.
    by rewrite Z2Nat.id by lia.
Qed.

(** X8. With a maximum of at least 500, the row that [gethistogram] adds
    for a word with an entry of frequency [f] names the bin at index
    [f / 500] when [f] lies between 0 and the end of the last bin, and the
    last bin otherwise; its [Stars] are those of the entry. *)
Theorem gethistogram_step_generated (m : Z) (w : WordStat) (e : FrequencyEntry)
  (df : DataFrame) :
  500 <= m → frequencies w !! "netflix" = Some e →
  let k := len (generatebins m) in
  let j := if decide (0 <= frequency e < 500 * k) then frequency e / 500 else k - 1 in
  0 <= j < k
  ∧ gethistogram_step (generatebins m) df w
    = inr (df ++ [ {| Range := str (500 * j) +:+ "-" +:+ str (500 * j + 500);
                      Stars := Num (stars e) |} ]).
Proof.
  intros Hm He k j.
  destruct (generated_bin_lookup m (frequency e) Hm) as (Hj & Hget & Hbin).
  fold k in Hj, Hget, Hbin. fold j in Hj, Hget, Hbin.
  split; [done|].
  unfold gethistogram_step. by rewrite He, Hget, bind_inr, Hbin.
Qed.

(** The word "猫" of frequency 1200 against the bins for 1200 goes to the
    second and last bin. *)
Lemma gethistogram_step_generated_witness :
  gethistogram_step (generatebins 1200) [] (netflix_word "猫" 3 1200 4)
  = inr [ {| Range := "500-1000"; Stars := Num 4 |} ].
Proof.
  apply (gethistogram_step_generated 1200 (netflix_word "猫" 3 1200 4)
           {| frequency := 1200; stars := 4 |} []); [lia|reflexivity].
Defined.

(** X9. A word whose frequency is the largest of the list is never put
    into a bin that holds its frequency: with a maximum of at least 500,
    no generated range contains the maximum, and the row of the word names
    the last bin. *)
Theorem gethistogram_maximum_overflows (word_list : list WordStat) (w : WordStat)
  (e : FrequencyEntry) (df : DataFrame) :
  500 <= getmaximumfreq word_list →
  frequencies w !! "netflix" = Some e →
  frequency e = getmaximumfreq word_list →
  let bins := generatebins (getmaximumfreq word_list) in
  (∀ i : nat, (i < length bins)%nat → ¬ in_range (frequency e) (nth_range i))
  ∧ ∃ last_bin,
      last bins = Some last_bin
      ∧ gethistogram_step bins df w
        = inr (df ++ [ {| Range := last_bin; Stars := Num (stars e) |} ]).
Proof.
  intros Hm He Hmax bins. subst bins.
  set (m := getmaximumfreq word_list) in *.
  pose proof (generatebins_nonempty m Hm) as Hk.
  pose proof (Z.mul_div_le m 500) as Hfloor.
  assert (length (generatebins m) = Z.to_nat (m / 500)) as Hlen
    by apply length_generatebins.
  split.
  - intros i Hi. unfold in_range, nth_range. simpl. lia.
  - destruct (generated_bin_lookup m (frequency e) Hm) as (Hj & Hget & Hbin).
    revert Hj Hget Hbin. unfold len. rewrite Hlen.
    rewrite decide_False by lia. intros Hj Hget Hbin.
    eexists. split.
    + rewrite last_lookup, Hlen.
      rewrite generatebins_spec. apply bin_names_lookup_nth. lia.
    + unfold gethistogram_step. rewrite He, Hget, bind_inr, Hbin.
      replace (Z.of_nat (Init.Nat.pred (Z.to_nat (m / 500))))
        with (Z.of_nat (Z.to_nat (m / 500)) - 1) by lia.
      done.
Qed.

(** The word "猫" carries the largest frequency of its list. *)
Lemma gethistogram_maximum_overflows_witness :
  (∀ i : nat, (i < 2)%nat → ¬ in_range 1200 (nth_range i))
  ∧ ∃ last_bin,
      last ["0-500"; "500-1000"] = Some last_bin
      ∧ gethistogram_step ["0-500"; "500-1000"] [] (netflix_word "猫" 3 1200 4)
        = inr [ {| Range := last_bin; Stars := Num 4 |} ].
Proof.
  apply (gethistogram_maximum_overflows neko_1200 (netflix_word "猫" 3 1200 4)
           {| frequency := 1200; stars := 4 |} []); [by vm_compute|reflexivity..].
Defined.

(** ** The entries of the analysis *)

Section UsesMore.
Context `{EqDecision A}.
Implicit Types (xs : list A).

Lemma count_pos xs x : x ∈ xs ↔ (0 < count x xs)%nat.
Proof.
  induction xs as [|a xs IH]; [split; [by intros ?%elem_of_nil|unfold count; simpl; lia]|].
  rewrite elem_of_cons, count_cons, IH.
  destruct (decide (a = x)) as [->|Hne]; [split; [lia|by left]|].
  split; [intros [->|?]; [done|lia]|intros ?; right; lia].
Qed.

Lemma with_uses_elem `{!SetIter A} xs (p : A * nat) :
  p ∈ with_uses xs ↔ p.1 ∈ xs ∧ p.2 = count p.1 xs.
Proof.
  rewrite with_uses_perm, list_elem_of_fmap. split.
  - intros (x & -> & Hx). rewrite elem_of_remove_dups in Hx. done.
  - intros [Hx Hc]. exists p.1. rewrite elem_of_remove_dups.
    split; [|done]. destruct p as [x n]. simpl in *. by subst.
Qed.

Lemma with_uses_fst `{!SetIter A} xs : (with_uses xs).*1 ≡ₚ remove_dups xs.
Proof.
  rewrite with_uses_perm, <- list_fmap_compose.
  by rewrite (list_fmap_ext _ id (remove_dups xs)), list_fmap_id.
Qed.

Lemma with_uses_nil `{!SetIter A} xs : with_uses xs = [] ↔ xs = [].
Proof.
  split.
  - intros Hnil. destruct xs as [|x xs]; [done|].
    assert ((x, count x (x :: xs)) ∈ with_uses (x :: xs)) as Hin.
    { apply with_uses_elem. split; [left|done]. }
    rewrite Hnil in Hin. by apply elem_of_nil in Hin.
  - intros ->. apply Permutation_nil_r. rewrite with_uses_perm. done.
Qed.
End UsesMore.

(** Sorting by uses keeps the elements of equal count in their order. *)
Lemma filter_insert_desc {A} (n : nat) (x : A * nat) (l : list (A * nat)) :
  filter (λ p, p.2 = n) (insert_desc x l) = filter (λ p, p.2 = n) (x :: l).
Proof.
  induction l as [|y l IH]; [done|]. simpl.
  destruct (decide (x.2 < y.2)%nat) as [Hlt|]; [|done].
  rewrite (filter_cons _ y (insert_desc x l)), IH. rewrite !filter_cons.
  destruct (decide (y.2 = n)), (decide (x.2 = n)); try done. lia.
Qed.

Lemma filter_sorted_desc {A} (n : nat) (l : list (A * nat)) :
  filter (λ p, p.2 = n) (sorted_desc l) = filter (λ p, p.2 = n) l.
Proof.
  induction l as [|x l IH]; [done|]. simpl.
  by rewrite filter_insert_desc, !filter_cons, IH.
Qed.

Lemma filter_fmap_pred {A B} (f : A → B) (P : B → Prop) `{∀ y, Decision (P y)}
  (l : list A) :
  filter P (f <$> l) = f <$> filter (λ x, P (f x)) l.
Proof.
  induction l as [|x l IH]; [done|]. rewrite fmap_cons, !filter_cons.
  destruct (decide (P (f x))); by rewrite IH.
Qed.

Lemma sorted_desc_head {A} (l : list (A * nat)) (p : A * nat) (rest : list (A * nat)) :
  sorted_desc l = p :: rest → ∀ q, q ∈ l → (q.2 <= p.2)%nat.
Proof.
  intros Hsorted q Hq.
  pose proof (sorted_desc_strongly_sorted l) as Hs. rewrite Hsorted in Hs.
  apply StronglySorted_cons in Hs as [Hall _].
  rewrite <- (sorted_desc_perm l), Hsorted in Hq.
  apply elem_of_cons in Hq as [->|Hq]; [done|].
  rewrite Forall_forall in Hall. by apply Hall.
Qed.

Section AnalysisMore.
Context (C : SetIter codepoint) (W : SetIter string).
Variable get_frequency : string → gmap string FrequencyEntry.
Variables (book : Book.t) (text : list codepoint) (tokens : list string).

Lemma words_word :
  word <$> words (analyse get_frequency book text tokens) = (with_uses tokens).*1.
Proof. simpl. unfold word_list_of. by rewrite <- list_fmap_compose. Qed.

Lemma chars_character :
  character <$> chars (analyse get_frequency book text tokens) = (with_uses text).*1.
Proof. simpl. unfold char_list_of. by rewrite <- list_fmap_compose. Qed.

(** X10. Every distinct word of the tokens has exactly one entry in
    [words] and no other word has one; likewise every distinct character
    of the text in [chars]. *)
Theorem analyse_entries_distinct :
  let r := analyse get_frequency book text tokens in
  NoDup (word <$> words r)
  ∧ (∀ w, w ∈ word <$> words r ↔ w ∈ tokens)
  ∧ NoDup (character <$> chars r)
  ∧ (∀ c, c ∈ character <$> chars r ↔ c ∈ text).
Proof.
  intros r. subst r. rewrite words_word, chars_character.
  split; [rewrite with_uses_fst; apply NoDup_remove_dups|].
  split; [intros w; rewrite with_uses_fst; apply elem_of_remove_dups|].
  split; [rewrite with_uses_fst; apply NoDup_remove_dups|].
  intros c. rewrite with_uses_fst. apply elem_of_remove_dups.
Qed.

(** X11. The occurrence count of an entry is the number of times its
    word stands among the tokens, which is at least one, and its
    frequencies are those that [get_frequency] gives for the word; the
    count of a character entry is the number of times the character stands
    in the text. *)
Theorem analyse_entries :
  let r := analyse get_frequency book text tokens in
  (∀ ws, ws ∈ words r →
         ocurrences ws = count (word ws) tokens
         ∧ (1 <= ocurrences ws)%nat
         ∧ frequencies ws = get_frequency (word ws))
  ∧ (∀ cs, cs ∈ chars r →
           occurences cs = count (character cs) text
           ∧ (1 <= occurences cs)%nat).
Proof.
  intros r. subst r. simpl. unfold word_list_of, char_list_of. split.
  - intros ws (p & -> & Hp)%list_elem_of_fmap. simpl.
    apply with_uses_elem in Hp as [Hin Hc]. split; [done|]. split; [|done].
    apply count_pos in Hin. lia.
  - intros cs (p & -> & Hp)%list_elem_of_fmap. simpl.
    apply with_uses_elem in Hp as [Hin Hc]. split; [done|].
    apply count_pos in Hin. lia.
Qed.

(** X12. [n_words_unique] is the length of [words] and
    [n_words_used_once] the number of its entries with count 1, and
    [words] is empty exactly when there are no tokens; the same holds for
    [chars] and the text. *)
Theorem analyse_lengths :
  let r := analyse get_frequency book text tokens in
  length (words r) = n_words_unique r
  ∧ length (filter (λ ws, ocurrences ws = 1%nat) (words r)) = n_words_used_once r
  ∧ (words r = [] ↔ tokens = [])
  ∧ length (chars r) = n_chars_unique r
  ∧ length (filter (λ cs, occurences cs = 1%nat) (chars r)) = n_chars_used_once r
  ∧ (chars r = [] ↔ text = []).
Proof.
  intros r. subst r. simpl. unfold word_list_of, char_list_of, used_once_of.
  rewrite !length_fmap, !filter_fmap_pred, !length_fmap. simpl.
  assert (∀ `{EqDecision A} `{!SetIter A} (xs : list A),
            length (with_uses xs) = length (set_iter xs)) as Hlen.
  { intros. unfold with_uses. by rewrite sorted_desc_perm, length_fmap. }
  assert (∀ {A B} (f : A → B) (l : list A), f <$> l = [] ↔ l = []) as Hnil.
  { intros A B f l. split; [apply fmap_nil_inv|by intros ->]. }
  rewrite !Hlen. split; [done|]. split; [done|].
  split; [by rewrite Hnil, with_uses_nil|].
  split; [done|]. split; [done|].
  by rewrite Hnil, with_uses_nil.
Qed.

(** X13. Entries with the same count stand in [words] in the order in
    which the set of the distinct words yields them: for every count [n],
    the words of the entries with count [n] are the members of the set
    that occur [n] times, in the order of the set's iteration. The same
    holds for [chars]. *)
Theorem analyse_ties_keep_order (n : nat) :
  let r := analyse get_frequency book text tokens in
  word <$> filter (λ ws, ocurrences ws = n) (words r)
  = filter (λ w, count w tokens = n) (set_iter tokens)
  ∧ character <$> filter (λ cs, occurences cs = n) (chars r)
    = filter (λ c, count c text = n) (set_iter text).
Proof.
  intros r. subst r. simpl. unfold word_list_of, char_list_of, with_uses.
  rewrite !filter_fmap_pred. simpl.
  rewrite !filter_sorted_desc, !filter_fmap_pred, <- !list_fmap_compose. simpl.
  split; apply list_fmap_id.
Qed.

(** X14. The first entry of [words] is a most frequent word: no token
    occurs more often than the word of the first entry; and there is no
    first entry only when there are no tokens. The same holds for
    [chars]. *)
Theorem analyse_most_frequent_first :
  let r := analyse get_frequency book text tokens in
  match words r with
  | first :: _ => ∀ t, t ∈ tokens → (count t tokens <= ocurrences first)%nat
  | [] => tokens = []
  end
  ∧ match chars r with
    | first :: _ => ∀ c, c ∈ text → (count c text <= occurences first)%nat
    | [] => text = []
    end.
Proof.
  intros r. subst r. simpl. unfold word_list_of, char_list_of. split.
  - destruct (with_uses tokens) as [|p rest] eqn:E; [by apply with_uses_nil in E|].
    simpl. intros t Ht.
    apply (sorted_desc_head _ _ _ E (t, count t tokens)).
    apply list_elem_of_fmap. exists t. by rewrite set_iter_elem.
  - destruct (with_uses text) as [|p rest] eqn:E; [by apply with_uses_nil in E|].
    simpl. intros c Hc.
    apply (sorted_desc_head _ _ _ E (c, count c text)).
    apply list_elem_of_fmap. exists c. by rewrite set_iter_elem.
Qed.
End AnalysisMore.

(** ** The whole of [analyse_ebook] *)

Section EbookOutcome.
Variable env : Env.

Lemma word_list_has_entry (l : list (string * nat)) :
  Exists has_entry (word_list_of (get_frequency env) l)
  ↔ ∃ p, p ∈ l ∧ is_Some (get_frequency env p.1 !! "netflix").
Proof.
  unfold word_list_of. rewrite Exists_exists. split.
  - intros (ws & (p & -> & Hp)%list_elem_of_fmap & Hentry). by exists p.
  - intros (p & Hp & Hentry).
    exists {| word := p.1; ocurrences := p.2; frequencies := get_frequency env p.1 |}.
    split; [|exact Hentry]. apply list_elem_of_fmap. by exists p.
Qed.

(** X15. When the file is processed, its text read and the text cut into
    tokens, [analyse_ebook] returns the dictionary of the analysis unless
    the histogram fails: it raises [IndexError] when some token has an
    entry under the tracked key and every such entry has a frequency
    below 500, and returns the dictionary when no token has an entry or
    some entry has a frequency of at least 500. *)
Theorem analyse_ebook_outcome (filename : string) (book : Book.t)
  (text : list codepoint) (tokens : list string) :
  process_file env filename = inr book →
  read_text env (Book.path book) = inr text →
  parse_sentence env text = inr tokens →
  let data := @analyse (chars_iter env) (words_iter env) (get_frequency env)
                book text tokens in
  ((∃ t, t ∈ tokens ∧ is_Some (get_frequency env t !! "netflix"))
   ∧ (∀ t e, t ∈ tokens → get_frequency env t !! "netflix" = Some e →
             frequency e < 500)
   → analyse_ebook env filename = inl (IndexError "list index out of range"))
  ∧ ((∀ t, t ∈ tokens → get_frequency env t !! "netflix" = None)
     ∨ (∃ t e, t ∈ tokens ∧ get_frequency env t !! "netflix" = Some e
               ∧ 500 <= frequency e)
     → analyse_ebook env filename = inr data).
Proof.
  intros Hbook Htext Htokens data.
  assert (analyse_ebook env filename
          = (gethistogram (words data) ≫= λ _, mret data)) as ->.
  { unfold analyse_ebook. rewrite Hbook, bind_inr, Htext.
    change (call (inr text)) with (inr text : result (list codepoint)).
    rewrite bind_inr, Htokens. done. }
  assert (∀ ws, ws ∈ words data →
                word ws ∈ tokens ∧ frequencies ws = get_frequency env (word ws)) as Hws.
  { intros ws (p & -> & Hp)%list_elem_of_fmap. simpl.
    by apply (@with_uses_elem _ _ (words_iter env)) in Hp as [Hin _]. }
  split.
  - intros [(t & Ht & Hentry) Hsmall].
    rewrite gethistogram_no_bins; [done| |].
    + destruct (getmaximumfreq_spec (words data)) as (_ & _ & [->|(ws & e & Hin & He & <-)]);
        [lia|].
      destruct (Hws ws Hin) as [Hword Hfreq]. rewrite Hfreq in He. by eapply Hsmall.
    + apply word_list_has_entry. exists (t, count t tokens). split; [|done].
      apply (@with_uses_elem _ _ (words_iter env)). done.
  - intros Hcase.
    destruct (gethistogram_ok (words data)) as [df ->]; [|done].
    destruct Hcase as [Hnone|(t & e & Ht & He & Hbig)].
    + right. apply Forall_forall. intros ws Hin [e He].
      destruct (Hws ws Hin) as [Hword Hfreq]. rewrite Hfreq, Hnone in He; done.
    + left. etrans; [exact Hbig|].
      apply (proj1 (proj2 (getmaximumfreq_spec (words data)))
               {| word := t; ocurrences := count t tokens;
                  frequencies := get_frequency env t |}); [|done].
      apply list_elem_of_fmap. exists (t, count t tokens). split; [done|].
      apply (@with_uses_elem _ _ (words_iter env)). done.
Qed.
End EbookOutcome.

(** In the world of the scenario the only entry has frequency 100. *)
Lemma analyse_ebook_outcome_witness :
  analyse_ebook scenario_env "book.txt" = inl (IndexError "list index out of range").
Proof.
  refine (proj1 (analyse_ebook_outcome scenario_env "book.txt" _ scenario_text
                   scenario_tokens eq_refl eq_refl eq_refl) _).
  split.
  - exists "猫". split; [by left|]. by eexists.
  - intros t e _. simpl. destruct (decide (t = "猫")).
    + rewrite lookup_singleton_eq. intros [= <-]. simpl. lia.
    + by rewrite lookup_empty.
Defined.

(** ** File names *)

Lemma append_cons (x : ascii) (a b : string) :
  String x a +:+ b = String x (a +:+ b).
Proof. reflexivity. Qed.

Lemma append_assoc (a b c : string) : (a +:+ b) +:+ c = a +:+ b +:+ c.
Proof. induction a as [|x a IH]; [done|]. by rewrite !append_cons, IH. Qed.

Lemma occurs_append c (a b : string) : occurs c (a +:+ b) ↔ occurs c a ∨ occurs c b.
Proof.
  induction a as [|x a IH]; [simpl; tauto|].
  rewrite append_cons. simpl. rewrite IH. tauto.
Qed.

Lemma split_append sep s t :
  split sep (s +:+ String sep t) = split sep s ++ split sep t.
Proof.
  induction s as [|c s IH].
  - simpl. by rewrite decide_True.
  - rewrite append_cons. simpl. destruct (decide (c = sep)); [by rewrite IH|].
    rewrite IH. pose proof (split_nonempty sep s). by destruct (split sep s).
Qed.

(** The piece after the last separator. *)
Lemma split_last_piece sep s t :
  ¬ occurs sep t → py_index (split sep (s +:+ String sep t)) (-1) = inr t.
Proof.
  intros Ht. rewrite split_append, (split_free sep t) by done.
  apply py_index_last.
Qed.

Lemma prefix_refl (s : string) : String.prefix s s = true.
Proof. induction s as [|c s IH]; simpl; [done|]. by destruct (ascii_dec c c). Qed.

Lemma replace_from_skip old new (s : string) : ∀ k,
  (String.length s <= k)%nat → replace_from old new k s = EmptyString.
Proof.
  induction s as [|c s IH]; intros k Hk; simpl; [done|].
  simpl in Hk. destruct k as [|k]; [lia|]. apply IH. lia.
Qed.

(** Removing [.ext] from [name.ext] leaves [name] when the name has no
    dot. *)
Lemma replace_extension (name ext : string) :
  ¬ occurs "." name →
  replace ("." +:+ ext) "" (name +:+ "." +:+ ext) = name.
Proof.
  intros Hname. unfold replace. rewrite decide_False by done.
  induction name as [|c name IH].
  - change ("" +:+ "." +:+ ext) with (String "." ext).
    change ("." +:+ ext) with (String "." ext).
    cbn [replace_from]. rewrite prefix_refl.
    rewrite replace_from_skip; [done|]. simpl. lia.
  - simpl in Hname.
    change (String c name +:+ "." +:+ ext) with (String c (name +:+ "." +:+ ext)).
    change ("." +:+ ext) with (String "." ext) in *.
    cbn [replace_from]. cbn [String.prefix].
    destruct (ascii_dec "." c) as [<-|_]; [destruct Hname; by left|].
    f_equal. apply IH. tauto.
Qed.

(** ** From a file to a book *)

(** X16. For a text file that is named [name.ext], alone or below a
    directory, where neither the name nor the extension has a dot or a
    slash, [process_txt] returns a book whose title is the name, whose
    path is the file name as given, and which has no authors and no
    image. *)
Theorem process_txt_title (dir name ext book_dir file_hash : string) :
  ¬ occurs "." name → ¬ occurs "/" name →
  ¬ occurs "." ext → ¬ occurs "/" ext →
  process_txt (dir +:+ "/" +:+ name +:+ "." +:+ ext) book_dir file_hash
  = inr {| Book.path := dir +:+ "/" +:+ name +:+ "." +:+ ext;
           Book.title := name; Book.authors := []; Book.image := "";
           Book.file_hash := file_hash; Book.book_dir := book_dir |}
  ∧ process_txt (name +:+ "." +:+ ext) book_dir file_hash
    = inr {| Book.path := name +:+ "." +:+ ext;
             Book.title := name; Book.authors := []; Book.image := "";
             Book.file_hash := file_hash; Book.book_dir := book_dir |}.
Proof.
  intros Hn1 Hn2 He1 He2.
  assert (¬ occurs "/" (name +:+ "." +:+ ext)) as Hslash.
  { rewrite occurs_append. simpl. intros [?|[[=]|?]]; tauto. }
  split.
  - set (filename := dir +:+ "/" +:+ name +:+ "." +:+ ext).
    assert (py_index (split "." filename) (-1) = inr ext) as Hdot.
    { replace filename with ((dir +:+ "/" +:+ name) +:+ String "." ext)
        by (by rewrite !append_assoc).
      by apply split_last_piece. }
    assert (py_index (split "/" filename) (-1) = inr (name +:+ "." +:+ ext)) as Hlast.
    { by apply (split_last_piece "/" dir (name +:+ "." +:+ ext)). }
    unfold process_txt. rewrite Hdot, bind_inr, Hlast, bind_inr.
    by rewrite replace_extension.
  - set (filename := name +:+ "." +:+ ext).
    assert (py_index (split "." filename) (-1) = inr ext) as Hdot.
    { by apply (split_last_piece "." name ext). }
    assert (py_index (split "/" filename) (-1) = inr filename) as Hlast.
    { rewrite (split_free "/") by done. apply (py_index_last []). }
    unfold process_txt. rewrite Hdot, bind_inr, Hlast, bind_inr.
    subst filename. by rewrite replace_extension.
Qed.

(** An upload of the name [book.txt]. *)
Lemma process_txt_title_witness :
  process_txt "uploads/book.txt" "static/books/00" "00"
  = inr {| Book.path := "uploads/book.txt"; Book.title := "book";
           Book.authors := []; Book.image := "";
           Book.file_hash := "00"; Book.book_dir := "static/books/00" |}.
Proof.
  apply (process_txt_title "uploads" "book" "txt" "static/books/00" "00");
    simpl; intros H; decompose [or] H; discriminate || done.
Defined.

Section ProcessFile.
Variable env : Env.

(** A book from [process_epub] carries the hash and the directory it was
    given. *)
Lemma process_epub_book filename book_dir file_hash book :
  process_epub env filename book_dir file_hash = inr book →
  Book.file_hash book = file_hash ∧ Book.book_dir book = book_dir.
Proof.
  unfold process_epub.
  destruct (call (remove_ruby_text_from_epub env _ _)) as [?|book_path]; [done|].
  rewrite bind_inr.
  destruct (call (get_epub_metadata env _)) as [?|meta]; [done|].
  rewrite bind_inr.
  destruct (call (save_base64_image env _ _)) as [?|image_path]; [done|].
  rewrite bind_inr.
  destruct (call (convert_epub_to_txt env _)) as [?|txt_file]; [done|].
  rewrite bind_inr. by intros [= <-].
Qed.

Lemma process_txt_book filename book_dir file_hash book :
  process_txt filename book_dir file_hash = inr book →
  Book.path book = filename ∧ Book.authors book = [] ∧ Book.image book = ""
  ∧ Book.file_hash book = file_hash ∧ Book.book_dir book = book_dir.
Proof.
  unfold process_txt.
  destruct (split_last "." filename) as [ext ->].
  destruct (split_last "/" filename) as [name ->].
  rewrite !bind_inr. by intros [= <-].
Qed.

(** X17. A book that [process_file] returns belongs to a file whose hash
    could be computed and whose extension is [epub] or [txt]: its
    [file_hash] is that hash and its [book_dir] is [static/books/]
    followed by the hash; for the extension [txt] its path is the file
    name, and it has no authors and no image. *)
Theorem process_file_book (filename : string) (book : Book.t) :
  process_file env filename = inr book →
  ∃ file_hash extension,
    sha256sum env filename = inr file_hash
    ∧ py_index (split "." filename) (-1) = inr extension
    ∧ (extension = "epub" ∨ extension = "txt")
    ∧ Book.file_hash book = file_hash
    ∧ Book.book_dir book = "static/books/" +:+ file_hash
    ∧ (extension = "txt" →
       Book.path book = filename ∧ Book.authors book = [] ∧ Book.image book = "").
Proof.
  unfold process_file.
  destruct (split_last "." filename) as [extension ->]. rewrite bind_inr.
  destruct (sha256sum env filename) as [e|file_hash]; [done|]. rewrite bind_inr.
  intros Hbook. exists file_hash, extension. split; [done|]. split; [done|].
  destruct (decide (extension = "epub")) as [->|Hepub].
  - apply process_epub_book in Hbook as [? ?]. split_and!; [by left|done..].
  - destruct (decide (extension = "txt")) as [->|Htxt]; [|done].
    apply process_txt_book in Hbook as (? & ? & ? & ? & ?).
    split_and!; [by right|done..].
Qed.

(** X18. The extension decides what [process_file] does with a file
    whose hash can be computed: a name that ends in [.txt] gives the book
    of [process_txt], with the name as its path, and a name that ends in
    [.epub] is handed to [process_epub]; both get [static/books/] followed
    by the hash as the directory of the book. *)
Theorem process_file_dispatch (stem file_hash : string) :
  (sha256sum env (stem +:+ ".txt") = inr file_hash →
   ∃ title,
     process_file env (stem +:+ ".txt")
     = inr {| Book.path := stem +:+ ".txt"; Book.title := title;
              Book.authors := []; Book.image := "";
              Book.file_hash := file_hash;
              Book.book_dir := "static/books/" +:+ file_hash |})
  ∧ (sha256sum env (stem +:+ ".epub") = inr file_hash →
     process_file env (stem +:+ ".epub")
     = process_epub env (stem +:+ ".epub") ("static/books/" +:+ file_hash) file_hash).
Proof.
  split; intros Hhash; unfold process_file.
  - rewrite (split_last_piece "." stem "txt"), bind_inr, Hhash, bind_inr
      by (simpl; intros H; decompose [or] H; discriminate || done).
    rewrite decide_False, decide_True by done.
    destruct (process_txt_ok (stem +:+ ".txt") ("static/books/" +:+ file_hash) file_hash)
      as [book Hbook].
    rewrite Hbook. destruct (process_txt_book _ _ _ _ Hbook) as (? & ? & ? & ? & ?).
    exists (Book.title book). destruct book. simpl in *. by subst.
  - rewrite (split_last_piece "." stem "epub"), bind_inr, Hhash, bind_inr
      by (simpl; intros H; decompose [or] H; discriminate || done).
    by rewrite decide_True.
Qed.

(** X19. [process_file] never fails at an index: what it raises is the
    error of [open], the [ValueError] of an empty file, the [ValueError]
    of the extension, or the error of a collaborator. *)
Theorem process_file_errors (filename : string) (e : exn) :
  process_file env filename = inl e →
  (∃ msg, e = OSError msg)
  ∨ e = ValueError "cannot mmap an empty file"
  ∨ e = extension_error
  ∨ (∃ msg, e = CollaboratorError msg).
Proof.
  unfold process_file.
  destruct (split_last "." filename) as [extension ->]. rewrite bind_inr.
  destruct (sha256sum env filename) as [e'|file_hash] eqn:Hhash.
  - intros [= <-]. destruct (sha256sum_error _ _ _ Hhash); tauto.
  - rewrite bind_inr.
    destruct (decide (extension = "epub")).
    + intros ?%process_epub_error. tauto.
    + destruct (decide (extension = "txt")).
      * destruct (process_txt_ok filename ("static/books/" +:+ file_hash) file_hash)
          as [book ->]. done.
      * intros [= <-]. tauto.
Qed.
End ProcessFile.

(** A text file of the scenario's world. *)
Lemma process_file_book_witness :
  ∃ file_hash extension,
    sha256sum scenario_env "uploads/book.v2.txt" = inr file_hash
    ∧ py_index (split "." "uploads/book.v2.txt") (-1) = inr extension
    ∧ (extension = "epub" ∨ extension = "txt")
    ∧ "00" = file_hash
    ∧ "static/books/00" = "static/books/" +:+ file_hash
    ∧ (extension = "txt" →
       "uploads/book.v2.txt" = "uploads/book.v2.txt" ∧ @nil string = [] ∧ "" = "").
Proof.
  apply (process_file_book scenario_env "uploads/book.v2.txt"
           {| Book.path := "uploads/book.v2.txt"; Book.title := "book.v2";
              Book.authors := []; Book.image := ""; Book.file_hash := "00";
              Book.book_dir := "static/books/00" |}).
  reflexivity.
Defined.

(** The text file of the scenario's world again. *)
Lemma process_file_dispatch_witness :
  ∃ title,
    process_file scenario_env "uploads/book.v2.txt"
    = inr {| Book.path := "uploads/book.v2.txt"; Book.title := title;
             Book.authors := []; Book.image := ""; Book.file_hash := "00";
             Book.book_dir := "static/books/00" |}.
Proof.
  apply (proj1 (process_file_dispatch scenario_env "uploads/book.v2" "00")).
  reflexivity.
Defined.

(** A file that cannot be opened. *)
Lemma process_file_errors_witness :
  (∃ msg, OSError "No such file or directory: 'book.pdf'" = OSError msg)
  ∨ OSError "No such file or directory: 'book.pdf'"
    = ValueError "cannot mmap an empty file"
  ∨ OSError "No such file or directory: 'book.pdf'" = extension_error
  ∨ (∃ msg, OSError "No such file or directory: 'book.pdf'" = CollaboratorError msg).
Proof. apply (process_file_errors no_files "book.pdf"). reflexivity. Defined.

(** ** Cleaning a directory *)

Lemma clean_dir_fold_lookup (keep : list string) (l : list (string * entry)) :
  ∀ (m : gmap string entry) (name : string),
  foldr (clean_dir_step keep) m l !! name
  = if decide ((name, File) ∈ l ∧ suffix name ∉ keep) then None else m !! name.
Proof.
  induction l as [|[n k] l IH]; intros m name.
  { rewrite decide_False; [done|]. intros [?%elem_of_nil _]. done. }
  rewrite foldr_cons. unfold clean_dir_step at 1. cbn [fst snd]. destruct k.
  - destruct (decide (suffix n ∈ keep)) as [Hkeep|Hdrop].
    + rewrite IH. apply decide_ext. rewrite elem_of_cons. split.
      * intros [Hin Hs]. split; [by right|done].
      * intros [[[= -> ]|Hin] Hs]; [done|by split].
    + destruct (decide (n = name)) as [->|Hne].
      * rewrite lookup_delete_eq, decide_True; [done|]. split; [left|done].
      * rewrite lookup_delete_ne, IH by done. apply decide_ext.
        rewrite elem_of_cons. split; [intros [? ?]; split; [by right|done]|].
        intros [[[= ?]|?] ?]; [congruence|by split].
  - rewrite IH. apply decide_ext. rewrite elem_of_cons. split.
    + intros [Hin Hs]. split; [by right|done].
    + intros [[[=]|Hin] Hs]. by split.
Qed.

(** What is found under a name once the directory is cleaned. *)
Lemma clean_dir_spec (dir : gmap string entry) (keep_extensions : option (list string))
  (name : string) :
  clean_dir dir keep_extensions !! name
  = match dir !! name with
    | Some File =>
        if decide (suffix name ∈ default [] keep_extensions) then Some File else None
    | other => other
    end.
Proof.
  unfold clean_dir. rewrite clean_dir_fold_lookup.
  destruct (dir !! name) as [[|]|] eqn:E.
  - destruct (decide (suffix name ∈ default [] keep_extensions)).
    + rewrite decide_False; [done|]. tauto.
    + rewrite decide_True; [done|]. split; [by apply elem_of_map_to_list|done].
  - rewrite decide_False; [done|]. intros [Hin%elem_of_map_to_list _]. congruence.
  - rewrite decide_False; [done|]. intros [Hin%elem_of_map_to_list _]. congruence.
Qed.

Lemma split_only_empty sep s : split sep s = [EmptyString] → s = EmptyString.
Proof.
  destruct s as [|c s]; [done|]. simpl.
  destruct (decide (c = sep)).
  - intros [= H]. by destruct (split_nonempty sep s).
  - by destruct (split sep s).
Qed.

(** The suffix of [stem.ext]. *)
Lemma suffix_named (stem ext : string) :
  stem ≠ "" → ext ≠ "" → ¬ occurs "." ext →
  suffix (stem +:+ "." +:+ ext) = "." +:+ ext.
Proof.
  intros Hstem Hext Hdot. unfold suffix.
  change (stem +:+ "." +:+ ext) with (stem +:+ String "." ext).
  rewrite split_append, (split_free "." ext), reverse_snoc by done.
  destruct (split "." stem) as [|p ps _] eqn:E using rev_ind.
  { by destruct (split_nonempty "." stem). }
  rewrite reverse_snoc. rewrite decide_False by done.
  rewrite decide_False; [done|].
  intros [-> Hps]. apply (f_equal reverse) in Hps.
  rewrite reverse_involutive in Hps. simpl in Hps. subst ps.
  by apply split_only_empty in E.
Qed.

(** X20. [clean_dir] never removes a directory and adds nothing; a file
    stays exactly when its suffix is one of [keep_extensions]. *)
Theorem clean_dir_entries (dir : gmap string entry)
  (keep_extensions : option (list string)) (name : string) :
  let cleaned := clean_dir dir keep_extensions in
  (dir !! name = Some Directory → cleaned !! name = Some Directory)
  ∧ (dir !! name = Some File →
     (cleaned !! name = Some File ↔ suffix name ∈ default [] keep_extensions)
     ∧ (cleaned !! name = None ↔ suffix name ∉ default [] keep_extensions))
  ∧ (∀ k, cleaned !! name = Some k → dir !! name = Some k).
Proof.
  intros cleaned. subst cleaned. rewrite clean_dir_spec.
  split; [by intros ->|]. split.
  - intros ->. destruct (decide (suffix name ∈ default [] keep_extensions)).
    + split; (split; [done|]); [done|intros ?; done].
    + split; (split; [done|]); [intros ?; done|done].
  - intros k. destruct (dir !! name) as [[|]|]; [|done..].
    by destruct (decide (suffix name ∈ default [] keep_extensions)).
Qed.

(** X21. Cleaning a directory twice with the same extensions is the same
    as cleaning it once. *)
Theorem clean_dir_idempotent (dir : gmap string entry)
  (keep_extensions : option (list string)) :
  clean_dir (clean_dir dir keep_extensions) keep_extensions
  = clean_dir dir keep_extensions.
Proof.
  apply map_eq. intros name. rewrite !clean_dir_spec.
  destruct (dir !! name) as [[|]|]; [|done..].
  by destruct (decide (suffix name ∈ default [] keep_extensions)).
Qed.

(** X22. Without extensions to keep, given as [None] or as the empty
    list, [clean_dir] removes every file: what is left are the
    directories of the directory. *)
Theorem clean_dir_default (dir : gmap string entry) (name : string) :
  clean_dir dir None = clean_dir dir (Some [])
  ∧ clean_dir dir None !! name
    = match dir !! name with Some Directory => Some Directory | _ => None end.
Proof.
  split; [done|]. rewrite clean_dir_spec.
  destruct (dir !! name) as [[|]|]; [|done..].
  destruct (decide (suffix name ∈ default [] None)) as [Hin|_]; [|done].
  by apply elem_of_nil in Hin.
Qed.

(** X23. A file named [stem.ext], with a stem and an extension that are
    not empty and an extension without a dot, stays when [.ext] is among
    the extensions to keep and is removed otherwise. *)
Theorem clean_dir_named_file (dir : gmap string entry) (keep_extensions : list string)
  (stem ext : string) :
  stem ≠ "" → ext ≠ "" → ¬ occurs "." ext →
  dir !! (stem +:+ "." +:+ ext) = Some File →
  clean_dir dir (Some keep_extensions) !! (stem +:+ "." +:+ ext)
  = if decide ("." +:+ ext ∈ keep_extensions) then Some File else None.
Proof.
  intros Hstem Hext Hdot Hfile.
  rewrite clean_dir_spec, Hfile, suffix_named by done. done.
Qed.

(** The dictionary of the analysis stays in the directory of the book. *)
Lemma clean_dir_named_file_witness :
  clean_dir book_dir_entries (Some [".json"; ".jpg"; ".png"]) !! "book_data.json"
  = Some File.
Proof.
  apply (clean_dir_named_file book_dir_entries [".json"; ".jpg"; ".png"]
           "book_data" "json"); [done|done| |reflexivity].
  simpl. intros H. decompose [or] H; discriminate || done.
Defined.

(** What [analyse_ebook] leaves of the directory of a book. *)
Example clean_dir_book_dir :
  clean_dir book_dir_entries (Some [".json"; ".jpg"; ".png"])
  = {[ "book_data.json" := File; "cover-image.jpg" := File; "images" := Directory ]}.
Proof. by vm_compute. Qed.
